(** * Shallow embedding of the wallet-gated video frontend

    Two components of the repository are embedded:

    - [AuthGuard] (AuthGuard.tsx): three [useEffect] hooks that clear the
      SIWE session, and the render decision between the login page and the
      protected children;
    - [VideoGrid] (VideoGrid.tsx): the [fetchVideos] loader, the effect that
      triggers it, and the pure display helpers [formatViewCount] and
      [getVideoThumbnail].

    JavaScript values are modelled as the code uses them: optional values as
    [option], strings as [string], truthiness written out, [number]s that
    hold integers as [Z] (with the binary64 rounding written out where the
    code divides), thrown exceptions as an explicit outcome. *)

From Stdlib Require Import ZArith List String Ascii Bool Lia.
From Stdlib Require Import Sorting.Sorted Sorting.Permutation.
From Stdlib Require Import Numbers.DecimalString.
Import ListNotations.

Local Open Scope string_scope.
Local Open Scope list_scope.
Local Open Scope Z_scope.

(** ** JavaScript truthiness and strict equality on optional strings *)

Module Js.

(** [undefined] is [None]; a string is truthy when it is not empty. *)
Definition truthy (s : option string) : bool :=
  match s with
  | Some v => negb (String.eqb v "")
  | None => false
  end.

(** [a || d] on an optional string with a string default. *)
Definition or_else (a : option string) (d : string) : string :=
  match a with
  | Some v => if String.eqb v "" then d else v
  | None => d
  end.

(** [a !== b] where both sides are strings or [undefined]. *)
Definition strict_neq (a b : option string) : bool :=
  match a, b with
  | Some x, Some y => negb (String.eqb x y)
  | None, None => false
  | _, _ => true
  end.

(** [String.prototype.toLowerCase] on the code units below 128; the other
    code units are left as they are, so the model is the JavaScript
    function on ASCII tags. *)
Definition lower_ascii (c : ascii) : ascii :=
  let n := nat_of_ascii c in
  if (Nat.leb 65 n && Nat.leb n 90)%bool then ascii_of_nat (n + 32) else c.

Fixpoint toLowerCase (s : string) : string :=
  match s with
  | EmptyString => EmptyString
  | String c r => String (lower_ascii c) (toLowerCase r)
  end.

(** A string all of whose code units are below 128; on these
    [toLowerCase] above is [String.prototype.toLowerCase]. *)
Fixpoint is_ascii (s : string) : bool :=
  match s with
  | EmptyString => true
  | String c r => Nat.ltb (nat_of_ascii c) 128 && is_ascii r
  end.

(** [Number.prototype.toString] of a number holding an
    integer of magnitude below 10^21: its decimal digits. *)
Definition decimal (z : Z) : string :=
  NilEmpty.string_of_int (Z.to_int z).

End Js.

(** ** React's [useEffect] *)

Module React.

(** [useEffect(body, deps)]: [body] runs after the first render and after
    every render whose dependency array differs from the previous one;
    otherwise nothing happens ([skip]). *)
Definition useEffect {D R : Type} (same : D -> D -> bool)
    (prev : option D) (deps : D) (body skip : R) : R :=
  match prev with
  | None => body
  | Some d => if same d deps then skip else body
  end.

End React.

(** ** AuthGuard.tsx *)

Module AuthGuard.

(** What a commit of the component does to the session. *)
Inductive Action := ClearSession.

(** What the component returns from its render. *)
Inductive Rendered := LoginPage | Children.

(** The [chain] object of [useNetwork]: [chain_ref] stands for the object's
    identity, which is what a dependency array compares. *)
Record Chain := { chain_ref : nat; chain_id : Z }.

Section Guard.

(** The opaque credential held by the identity provider. *)
Variable Identity : Type.

(** Ids of the chains of the wagmi configuration. *)
Variable supportedChainIds : list Z.

(** Modelled from the spec: [isChainIdSupported] of
    ./wagmi/is-chain-id-supported is not among the sources; the spec
    describes it as membership of the active network id in the
    supported-network set, so an absent id is not supported. *)
Definition isChainIdSupported (id : option Z) : bool :=
  match id with
  | Some i => existsb (Z.eqb i) supportedChainIds
  | None => false
  end.

(** The values the hooks hand to one render; [clear] is the identity of
    the callback returned by [useSiweIdentity]. *)
Record Signals := {
  isConnected : bool;
  address : option string;
  chain : option Chain;
  clear : nat;
  isInitializing : bool;
  identity : option Identity;
  identityAddress : option string
}.

(** [chain?.id] *)
Definition chainId (s : Signals) : option Z := option_map chain_id (chain s).

Definition same_bool_nat (a b : bool * nat) : bool :=
  Bool.eqb (fst a) (fst b) && Nat.eqb (snd a) (snd b).

(** [Object.is] on the [chain] dependency: the same object, or both
    [undefined]; what the object holds is not looked at. *)
Definition same_chain (a b : option Chain) : bool :=
  match a, b with
  | Some x, Some y => Nat.eqb (chain_ref x) (chain_ref y)
  | None, None => true
  | _, _ => false
  end.

Definition same_chain_nat (a b : option Chain * nat) : bool :=
  same_chain (fst a) (fst b) && Nat.eqb (snd a) (snd b).

Definition same_addr (a b : option string * nat * option string) : bool :=
  let '(a1, c1, i1) := a in
  let '(a2, c2, i2) := b in
  negb (Js.strict_neq a1 a2) && Nat.eqb c1 c2 && negb (Js.strict_neq i1 i2).

(** Condition of the first effect: [!isConnected]. *)
Definition disconnected (s : Signals) : bool := negb (isConnected s).

(** Condition of the second effect: [!isChainIdSupported(chain?.id)]. *)
Definition unsupported (s : Signals) : bool :=
  negb (isChainIdSupported (chainId s)).

(** Condition of the third effect:
    [identityAddress && address && address !== identityAddress]. *)
Definition switched (s : Signals) : bool :=
  Js.truthy (identityAddress s) && Js.truthy (address s)
  && Js.strict_neq (address s) (identityAddress s).

(** [if (c) { clear(); }] *)
Definition when (c : bool) : list Action :=
  if c then [ClearSession] else [].

(** The three effects of one commit, in source order; [prev] is the
    previous render's signals, [None] at mount. *)
Definition effects (prev : option Signals) (s : Signals) : list Action :=
  React.useEffect same_bool_nat
    (option_map (fun p => (isConnected p, clear p)) prev)
    (isConnected s, clear s) (when (disconnected s)) []
  ++ React.useEffect same_chain_nat
    (option_map (fun p => (chain p, clear p)) prev)
    (chain s, clear s) (when (unsupported s)) []
  ++ React.useEffect same_addr
    (option_map (fun p => (address p, clear p, identityAddress p)) prev)
    (address s, clear s, identityAddress s) (when (switched s)) [].

(** The render decision:
    [if (!isInitializing && (!isConnected || !identity)) return <LoginPage />]. *)
Definition render (s : Signals) : Rendered :=
  if negb (isInitializing s)
     && (negb (isConnected s)
         || match identity s with Some _ => false | None => true end)
  then LoginPage
  else Children.

(** The session is cleared during this commit. *)
Definition clears (prev : option Signals) (s : Signals) : bool :=
  match effects prev s with
  | [] => false
  | _ :: _ => true
  end.

(** The signal combinations that call for a clear, read off the signals:
    the connection status is false; the id of the active network, if there
    is one, is not in the supported set; the wallet address and the
    identity address are both set (non-empty) and differ. *)
Definition violates (s : Signals) : Prop :=
  isConnected s = false
  \/ (forall c, chain s = Some c -> ~ In (chain_id c) supportedChainIds)
  \/ (exists a i,
        address s = Some a /\ identityAddress s = Some i
        /\ a <> "" /\ i <> "" /\ a <> i).

(** The commits of a mounted component, from the mount on: each render's
    effects see the signals of the render before. *)
Fixpoint commits (prev : option Signals) (renders : list Signals)
    : list (list Action) :=
  match renders with
  | [] => []
  | s :: rest => effects prev s :: commits (Some s) rest
  end.

End Guard.

Arguments isConnected {Identity} s.
Arguments address {Identity} s.
Arguments chain {Identity} s.
Arguments clear {Identity} s.
Arguments isInitializing {Identity} s.
Arguments identity {Identity} s.
Arguments identityAddress {Identity} s.
Arguments chainId {Identity} s.
Arguments disconnected {Identity} s.
Arguments unsupported {Identity} supportedChainIds s.
Arguments switched {Identity} s.
Arguments effects {Identity} supportedChainIds prev s.
Arguments render {Identity} s.
Arguments clears {Identity} supportedChainIds prev s.
Arguments violates {Identity} supportedChainIds s.
Arguments commits {Identity} supportedChainIds prev renders.

End AuthGuard.

(** ** IEEE-754 binary64 arithmetic on the values the grid computes

    A [number] holding an integer is a [Z]; the quotient of two positive
    integers is the binary64 nearest to the exact ratio, kept as mantissa
    and exponent. *)

Module Float.

(** The non-negative finite binary64 [mant * 2 ^ expo]. *)
Record F64 := { mant : Z; expo : Z }.

(** Round-to-nearest, ties to even, of [q + r / den] where [0 <= r < den]. *)
Definition nearest_even (q r den : Z) : Z :=
  if 2 * r <? den then q
  else if den <? 2 * r then q + 1
  else if Z.even q then q else q + 1.

(** [n / d] on numbers holding positive integers: the ratio rounded to 53
    significant bits (the result is in the normal range for the operands
    the grid uses, so neither overflow nor a subnormal occurs). *)
Definition div (n d : Z) : F64 :=
  let num e := n * 2 ^ Z.max 0 (- e) in
  let den e := d * 2 ^ Z.max 0 e in
  let e1 := Z.log2 n - Z.log2 d - 52 in
  let e := if num e1 / den e1 <? 2 ^ 52 then e1 - 1 else e1 in
  {| mant := nearest_even (num e / den e) (num e mod den e) (den e);
     expo := e |}.

(** [Number(b)] for a bigint [b]: exact up to 53 bits, rounded to nearest
    (ties to even) above; the result is again an integer. *)
Definition Number (b : Z) : Z :=
  let a := Z.abs b in
  let e := Z.log2 a - 52 in
  if e <=? 0 then b
  else Z.sgn b * (nearest_even (a / 2 ^ e) (a mod 2 ^ e) (2 ^ e) * 2 ^ e).

(** The integer [n] of [Number.prototype.toFixed] with one fraction digit:
    the [n] for which [n / 10 - x] is closest to zero, the larger one when
    there are two; that is, the floor of [10 * x + 1 / 2]. *)
Definition tenths (x : F64) : Z :=
  let up := 2 ^ Z.max 0 (expo x) in
  let down := 2 ^ Z.max 0 (- expo x) in
  (20 * mant x * up + down) / (2 * down).

(** [x.toFixed(1)] for [x] below 10^21. *)
Definition toFixed1 (x : F64) : string :=
  let n := tenths x in
  (Js.decimal (n / 10) ++ "." ++ Js.decimal (n mod 10))%string.

End Float.

(** ** VideoGrid.tsx *)

Module VideoGrid.

(** [storage_ref] of a video record: missing, a string, or the array that
    the Candid decoder produces for an optional text. *)
Inductive StorageRef :=
| NoRef
| RefString (s : string)
| RefArray (elems : list string).

(** A video record as the backend returns it; [timestamp] is a bigint. *)
Record Video := {
  video_id : string;
  title : string;
  timestamp : Z;
  storage_ref : StorageRef
}.

(** A thrown value or rejection reason: an [Error] with its message, or any
    other value with its [String(...)] rendering. *)
Inductive Thrown :=
| ErrorObject (message : string)
| OtherValue (rendering : string).

(** [err instanceof Error ? err.message : String(err)] *)
Definition describe (err : Thrown) : string :=
  match err with
  | ErrorObject m => m
  | OtherValue r => r
  end.

(** How a backend call settles; a resolved value is an array of video
    records or nullish ([None]). *)
Inductive Reply :=
| Rejects (reason : Thrown)
| Resolves (value : option (list Video)).

(** The backend client returned by [useActor]. [actor_ref] is the object's
    identity, [nested_actor] tells whether [actor.actor] is truthy, and
    [search_videos] is [None] when the object has no such function. *)
Record Actor := {
  actor_ref : nat;
  nested_actor : bool;
  list_videos_by_tag : string -> Reply;
  search_videos : option (string -> list string -> list string -> Reply)
}.

(** Backend calls, as they leave the component. *)
Inductive Call :=
| ListVideosByTag (tag : string)
| SearchVideos (query : string) (filterA filterB : list string).

(** *** Computations that call the backend and may throw *)

Inductive Outcome (A : Type) :=
| Returned (a : A)
| Threw (err : Thrown).

Arguments Returned {A} a.
Arguments Threw {A} err.

Definition Fetch (A : Type) : Type := (list Call * Outcome A)%type.

Definition ret {A : Type} (a : A) : Fetch A := ([], Returned a).

Definition throw {A : Type} (err : Thrown) : Fetch A := ([], Threw err).

Definition bind {A B : Type} (m : Fetch A) (k : A -> Fetch B) : Fetch B :=
  match m with
  | (log, Returned a) => let (log', o) := k a in (log ++ log', o)
  | (log, Threw err) => (log, Threw err)
  end.

(** [try { m } catch (err) { handler }] *)
Definition try_catch {A : Type} (m : Fetch A) (handler : Thrown -> Fetch A)
    : Fetch A :=
  match m with
  | (log, Threw err) => let (log', o) := handler err in (log ++ log', o)
  | (log, Returned a) => (log, Returned a)
  end.

(** [await] of a backend call: the call is logged, a rejection is thrown. *)
Definition await (c : Call) (r : Reply) : Fetch (option (list Video)) :=
  ([c], match r with
        | Resolves v => Returned v
        | Rejects reason => Threw reason
        end).

Notation "x <- m ;; k" := (bind m (fun x => k))
  (at level 61, m at next level, right associativity).

(** The message of the TypeError raised by reading a property of a nullish
    value (the text is the engine's; V8's is used). *)
Definition nullish_length : Thrown :=
  ErrorObject "Cannot read properties of undefined (reading 'length')".

Definition nullish_toLowerCase : Thrown :=
  ErrorObject "Cannot read properties of undefined (reading 'toLowerCase')".

(** Reading [videoList.length]: a TypeError on a nullish value. *)
Definition length_of (videoList : option (list Video)) : Fetch nat :=
  match videoList with
  | Some l => ret (List.length l)
  | None => throw nullish_length
  end.

(** [tag.toLowerCase()] *)
Definition lowered (tag : option string) : Fetch string :=
  match tag with
  | Some t => ret (Js.toLowerCase t)
  | None => throw nullish_toLowerCase
  end.

(** [tag && tag !== "all" && tag !== "All"] *)
Definition filtered (tag : option string) : bool :=
  Js.truthy tag && Js.strict_neq tag (Some "all")
  && Js.strict_neq tag (Some "All").

(** *** Sorting, newest first *)

(** The comparator [(a, b) => Number(b.timestamp) - Number(a.timestamp)].
    Both operands are integers, so the binary64 difference has the sign of
    the exact one, which is all that [sort] looks at. *)
Definition compareFn (a b : Video) : Z :=
  Float.Number (timestamp b) - Float.Number (timestamp a).

(** [Array.prototype.sort] is stable; with a consistent comparator its
    result is the one this insertion sort computes: an element goes before
    the first element it does not have to follow. *)
Fixpoint insert (x : Video) (l : list Video) : list Video :=
  match l with
  | [] => [x]
  | y :: r => if compareFn x y <=? 0 then x :: y :: r else y :: insert x r
  end.

Definition sort (l : list Video) : list Video := fold_right insert [] l.

(** [a] may stand before [b] in a list sorted newest first: the comparison
    is on the timestamps after [Number(...)]. *)
Definition not_older (a b : Video) : Prop :=
  Float.Number (timestamp b) <= Float.Number (timestamp a).

(** [if (videoList && videoList.length > 0) videoList.sort(...)] *)
Definition sorted_if_any (videoList : option (list Video))
    : option (list Video) :=
  match videoList with
  | Some (x :: r) => Some (sort (x :: r))
  | other => other
  end.

(** *** The loader *)

(** The first part of the outer [try]: the tag query or the search, each
    with its own handlers. *)
Definition query (actor : Actor) (tag : option string)
    : Fetch (option (list Video)) :=
  if filtered tag then
    try_catch
      (t <- lowered tag ;;
       videoList <- await (ListVideosByTag t) (list_videos_by_tag actor t) ;;
       _ <- length_of videoList ;;
       ret videoList)
      (fun _ => ret (Some []))
  else
    try_catch
      (videoList <-
         try_catch
           (match search_videos actor with
            | Some search => await (SearchVideos "" [] []) (search "" [] [])
            | None => ret (Some [])
            end)
           (fun _ => ret (Some [])) ;;
       ret videoList)
      (fun _ => ret (Some [])).

(** The body of the outer [try], up to the value handed to [setVideos]:
    the query, the sort, and the [videoList.length] read for the log line,
    which throws on a nullish list. *)
Definition fetchBody (actor : Actor) (tag : option string)
    : Fetch (list Video) :=
  videoList <- query actor tag ;;
  let videoList := sorted_if_any videoList in
  _ <- length_of videoList ;;
  ret match videoList with
      | Some l => l
      | None => []
      end.

(** The three state variables of the component. *)
Record GridState := {
  videos : list Video;
  loading : bool;
  error : option string
}.

Definition setVideos (v : list Video) (st : GridState) : GridState :=
  {| videos := v; loading := loading st; error := error st |}.

Definition setLoading (b : bool) (st : GridState) : GridState :=
  {| videos := videos st; loading := b; error := error st |}.

Definition setError (e : option string) (st : GridState) : GridState :=
  {| videos := videos st; loading := loading st; error := e |}.

(** [fetchVideos]: the backend calls it makes and the state it leaves, from
    the state [st] that its setters find. *)
Definition fetchVideos (actor : option Actor) (tag : option string)
    (st : GridState) : list Call * GridState :=
  match actor with
  | None => ([], setLoading false st)
  | Some a =>
      let (calls, outcome) := fetchBody a tag in
      (calls,
       setLoading false
         match outcome with
         | Returned videoList => setVideos videoList st
         | Threw err =>
             setVideos []
               (setError
                  (Some ("Failed to load videos: " ++ describe err)%string)
                  st)
         end)
  end.

(** A mounted grid: its state and the [prevFetchIdRef] ref. *)
Record Grid := {
  state : GridState;
  prevFetchIdRef : option string
}.

(** [useState([])], [useState(true)], [useState(null)], [useRef(null)]. *)
Definition mounted : Grid :=
  {| state := {| videos := []; loading := true; error := None |};
     prevFetchIdRef := None |}.

(** The fetch id: [actorId] joined to [tag || 'all']. *)
Definition fetchId (actor : Actor) (tag : option string) : string :=
  ((if nested_actor actor then "has-nested-actor" else "no-nested-actor")
   ++ "-" ++ Js.or_else tag "all")%string.

(** The tags for which [tag || 'all'] is ['all']. *)
Definition keyed_all (tag : option string) : Prop :=
  tag = None \/ tag = Some "" \/ tag = Some "all".

(** [prevFetchIdRef.current !== fetchId] *)
Definition is_new (prev : option string) (id : string) : bool :=
  match prev with
  | Some p => negb (String.eqb p id)
  | None => true
  end.

(** The body of the loading effect, with the fetch it starts run to its
    end. *)
Definition loadVideos (actor : option Actor) (tag : option string)
    (g : Grid) : list Call * Grid :=
  match actor with
  | None => ([], g)
  | Some a =>
      if negb (nested_actor a) then ([], g)
      else
        let id := fetchId a tag in
        if is_new (prevFetchIdRef g) id then
          let (calls, st) :=
            fetchVideos actor tag (setError None (setLoading true (state g)))
          in (calls, {| state := st; prevFetchIdRef := Some id |})
        else ([], g)
  end.

(** The dependency array [[actor, tag]]. *)
Definition same_deps (a b : option nat * option string) : bool :=
  match fst a, fst b with
  | Some x, Some y => Nat.eqb x y
  | None, None => true
  | _, _ => false
  end && negb (Js.strict_neq (snd a) (snd b)).

Definition deps (actor : option Actor) (tag : option string)
    : option nat * option string :=
  (option_map actor_ref actor, tag).

(** One commit of the grid: the effect runs when [[actor, tag]] changed. *)
Definition commit (prev : option (option Actor * option string))
    (actor : option Actor) (tag : option string) (g : Grid)
    : list Call * Grid :=
  React.useEffect same_deps
    (option_map (fun p => deps (fst p) (snd p)) prev) (deps actor tag)
    (loadVideos actor tag g) ([], g).

(** *** What the renderer shows *)

Inductive Branch := ErrorPanel | Skeleton | NoVideos | Cards.

(** [error ? "error" : loading ? "loading" : videos.length === 0 ? "empty"
    : "videos"] *)
Definition renderBranch (st : GridState) : Branch :=
  if Js.truthy (error st) then ErrorPanel
  else if loading st then Skeleton
  else match videos st with
       | [] => NoVideos
       | _ :: _ => Cards
       end.

(** The spec's fetch states, read off the state variables the way the
    render reads them. *)
Inductive FetchState :=
| Loading
| Loaded (collection : list Video)
| Failed (message : string).

Definition fetchState (st : GridState) : FetchState :=
  match error st with
  | Some m => if String.eqb m "" then
                if loading st then Loading else Loaded (videos st)
              else Failed m
  | None => if loading st then Loading else Loaded (videos st)
  end.

(** *** Display helpers *)

(** [formatViewCount] on a count that is an integer. *)
Definition formatViewCount (count : Z) : string :=
  if 1000000 <=? count then
    (Float.toFixed1 (Float.div count 1000000) ++ "M")%string
  else if 1000 <=? count then
    (Float.toFixed1 (Float.div count 1000) ++ "K")%string
  else Js.decimal count.

(** The literal default of [import.meta.env.VITE_GATEWAY_URL || ...]. *)
Definition defaultGateway : string := "salmon-worthy-hawk-798.mypinata.cloud".

(** The [storageRef] local: first element of an array, the string itself,
    or [null]. *)
Definition storageRef (r : StorageRef) : option string :=
  match r with
  | RefArray elems => hd_error elems
  | RefString s => Some s
  | NoRef => None
  end.

(** Truthiness of [video.storage_ref]: an array is truthy even when empty. *)
Definition has_storage_ref (r : StorageRef) : bool :=
  match r with
  | RefArray _ => true
  | RefString s => Js.truthy (Some s)
  | NoRef => false
  end.

(** [storageRef.substring(5)] *)
Definition cid_of (s : string) : string :=
  String.substring 5 (String.length s - 5)%nat s.

(** [getVideoThumbnail]; [env] is [import.meta.env.VITE_GATEWAY_URL]. *)
Definition getVideoThumbnail (env : option string) (video : Video) : string :=
  if Js.truthy (Some (video_id video)) then
    ("https://vod-cdn.lp-playback.studio/hls/" ++ video_id video
     ++ "/thumbnails/keyframes_0.jpg")%string
  else
    let fallback := "/header.png" in
    if has_storage_ref (storage_ref video) then
      match storageRef (storage_ref video) with
      | Some s =>
          if Js.truthy (Some s) && String.prefix "ipfs:" s then
            let cid := cid_of s in
            let gatewayDomain := Js.or_else env defaultGateway in
            ("https://" ++ gatewayDomain ++ "/ipfs/" ++ cid
             ++ "/thumbnail.jpg")%string
          else fallback
      | None => fallback
      end
    else fallback.

End VideoGrid.

(** ** Sample signals, backends and records used to run the definitions *)

Module Sample.

Import VideoGrid.

(** A render during identity initialization, with no wallet connected. *)
Definition initializing : AuthGuard.Signals unit :=
  {| AuthGuard.isConnected := false;
     AuthGuard.address := None;
     AuthGuard.chain := None;
     AuthGuard.clear := 0%nat;
     AuthGuard.isInitializing := true;
     AuthGuard.identity := None;
     AuthGuard.identityAddress := None |}.

(** A signed-in session on chain 1. *)
Definition signed_in : AuthGuard.Signals unit :=
  {| AuthGuard.isConnected := true;
     AuthGuard.address := Some "0xabc";
     AuthGuard.chain := Some {| AuthGuard.chain_ref := 7%nat;
                                AuthGuard.chain_id := 1 |};
     AuthGuard.clear := 0%nat;
     AuthGuard.isInitializing := false;
     AuthGuard.identity := Some tt;
     AuthGuard.identityAddress := Some "0xabc" |}.

(** The same session after the wallet went away. *)
Definition signed_out : AuthGuard.Signals unit :=
  {| AuthGuard.isConnected := false;
     AuthGuard.address := None;
     AuthGuard.chain := Some {| AuthGuard.chain_ref := 7%nat;
                                AuthGuard.chain_id := 1 |};
     AuthGuard.clear := 0%nat;
     AuthGuard.isInitializing := false;
     AuthGuard.identity := Some tt;
     AuthGuard.identityAddress := Some "0xabc" |}.

Definition video (id : string) (ts : Z) : Video :=
  {| video_id := id; title := id; timestamp := ts; storage_ref := NoRef |}.

Definition catalogue : list Video :=
  [video "a" 5; video "b" 20; video "c" 1].

(** A backend with both queries working. *)
Definition backend : Actor :=
  {| actor_ref := 1%nat;
     nested_actor := true;
     list_videos_by_tag := fun t =>
       if String.eqb t "comedy" then Resolves (Some [video "b" 20])
       else Resolves (Some []);
     search_videos := Some (fun _ _ _ => Resolves (Some catalogue)) |}.


(** A backend without a [search_videos] function. *)
Definition searchless : Actor :=
  {| actor_ref := 3%nat;
     nested_actor := true;
     list_videos_by_tag := fun _ => Resolves (Some catalogue);
     search_videos := None |}.

(** A backend whose search resolves to [undefined]. *)
Definition voiding : Actor :=
  {| actor_ref := 4%nat;
     nested_actor := true;
     list_videos_by_tag := fun _ => Resolves None;
     search_videos := Some (fun _ _ _ => Resolves None) |}.

(** A record without a video id whose storage reference is the decoded
    optional text. *)
Definition pinned : Video :=
  {| video_id := ""; title := "pinned"; timestamp := 7;
     storage_ref := RefArray ["ipfs:bafybeigdyr"] |}.

(** A record with both a video id and a storage reference. *)
Definition hosted : Video :=
  {| video_id := "f5eese9wwl88k4g8"; title := "hosted"; timestamp := 9;
     storage_ref := RefString "ipfs:bafybeigdyr" |}.

(** A grid state that holds the videos of an earlier fetch. *)
Definition showing : GridState :=
  {| videos := [video "b" 20]; loading := false; error := None |}.

End Sample.


(** ** VideoGrid.tsx: the rest of the card and of the empty notice *)

Module GridView.

Import VideoGrid.

(** The double-quote character of the empty notice. *)
Definition quote : string := String (ascii_of_nat 34) EmptyString.

(** The text under "No Videos Found":
    [tag ? `No videos found with the category "${tag}"`
         : 'No videos have been uploaded yet']. *)
Definition emptyMessage (tag : option string) : string :=
  if Js.truthy tag then
    ("No videos found with the category " ++ quote
     ++ match tag with Some t => t | None => "undefined" end ++ quote)%string
  else "No videos have been uploaded yet".

(** The [src] handed to the hover player:
    [`https://lax-prod-catalyst-0.lp-playback.studio/hls/${video.video_id}/index.m3u8`]. *)
Definition playerSrc (video : Video) : string :=
  ("https://lax-prod-catalyst-0.lp-playback.studio/hls/" ++ video_id video
   ++ "/index.m3u8")%string.

(** [x * 1000] on a number holding an integer: the exact product rounded to
    binary64, which for an integer is the rounding [Float.Number] does. *)
Definition times1000 (x : Z) : Z := Float.Number (x * 1000).

(** [new Date(ms)]: the time value, or [None] for an Invalid Date, which is
    what a time value beyond 8.64e15 ms gives (TimeClip). *)
Definition Date (ms : Z) : option Z :=
  if Z.abs ms <=? 8640000000000000 then Some ms else None.

(** The date [getTimeAgo] builds:
    [new Date(Number(timestamp) * 1000)]. *)
Definition dateOf (timestamp : Z) : option Z :=
  Date (times1000 (Float.Number timestamp)).

Section TimeAgo.

(** [formatDistanceToNow(date, { addSuffix: true })] of date-fns, which is
    not among the sources: it returns a text or throws. *)
Variable formatDistanceToNow : option Z -> Outcome string.

(** [getTimeAgo]: the formatter's text, or 'Unknown time' when it throws. *)
Definition getTimeAgo (timestamp : Z) : string :=
  match formatDistanceToNow (dateOf timestamp) with
  | Returned text => text
  | Threw _ => "Unknown time"
  end.

End TimeAgo.

(** The query that a fetch for [tag] dispatches resolved to the array
    [vs]. *)
Definition resolved (actor : Actor) (tag : option string) (vs : list Video)
    : Prop :=
  (filtered tag = true
   /\ exists t, tag = Some t
        /\ list_videos_by_tag actor (Js.toLowerCase t) = Resolves (Some vs))
  \/ (filtered tag = false
      /\ exists search, search_videos actor = Some search
           /\ search "" [] [] = Resolves (Some vs)).

(** The key of a video in the sort: its timestamp as a number. *)
Definition key (v : Video) : Z := Float.Number (timestamp v).

(** Two fetches in flight: the one for [(actor2, tag2)] settles first, the
    one for [(actor1, tag1)] after it; each settling runs the setters of
    its [fetchVideos] on the state it finds. *)
Definition settle_both (actor1 : Actor) (tag1 : option string)
    (actor2 : Actor) (tag2 : option string) (st : GridState) : GridState :=
  snd (fetchVideos (Some actor1) tag1
         (snd (fetchVideos (Some actor2) tag2 st))).

End GridView.

(** ** More sample data *)

Module Scenario.

Import VideoGrid.

(** Connected on chain 5 with no identity yet. *)
Definition on_chain_5 : AuthGuard.Signals unit :=
  {| AuthGuard.isConnected := true;
     AuthGuard.address := Some "0xabc";
     AuthGuard.chain := Some {| AuthGuard.chain_ref := 9%nat;
                                AuthGuard.chain_id := 5 |};
     AuthGuard.clear := 0%nat;
     AuthGuard.isInitializing := false;
     AuthGuard.identity := None;
     AuthGuard.identityAddress := None |}.

(** The same render after a sign-in on that chain. *)
Definition signed_in_on_chain_5 : AuthGuard.Signals unit :=
  {| AuthGuard.isConnected := true;
     AuthGuard.address := Some "0xabc";
     AuthGuard.chain := Some {| AuthGuard.chain_ref := 9%nat;
                                AuthGuard.chain_id := 5 |};
     AuthGuard.clear := 0%nat;
     AuthGuard.isInitializing := false;
     AuthGuard.identity := Some tt;
     AuthGuard.identityAddress := Some "0xabc" |}.

(** Two records whose nanosecond timestamps differ by one and are the same
    binary64. *)
Definition first_upload : Video :=
  {| video_id := "v1"; title := "first"; timestamp := 1700000000000000000;
     storage_ref := NoRef |}.

Definition second_upload : Video :=
  {| video_id := "v2"; title := "second"; timestamp := 1700000000000000001;
     storage_ref := NoRef |}.

(** A backend whose search returns the two of them, older first. *)
Definition nanos : Actor :=
  {| actor_ref := 5%nat;
     nested_actor := true;
     list_videos_by_tag := fun _ => Resolves (Some []);
     search_videos :=
       Some (fun _ _ _ => Resolves (Some [first_upload; second_upload])) |}.

(** A backend whose search returns its videos newest first. *)
Definition ordered : Actor :=
  {| actor_ref := 6%nat;
     nested_actor := true;
     list_videos_by_tag := fun _ => Resolves (Some []);
     search_videos :=
       Some (fun _ _ _ =>
               Resolves (Some [Sample.video "b" 20; Sample.video "a" 5;
                               Sample.video "c" 1])) |}.

(** A backend whose tag query works and whose search resolves to
    [undefined]. *)
Definition flaky : Actor :=
  {| actor_ref := 7%nat;
     nested_actor := true;
     list_videos_by_tag := fun _ => Resolves (Some Sample.catalogue);
     search_videos := Some (fun _ _ _ => Resolves None) |}.

(** The record of [Sample.hosted] under another title and without a
    storage reference. *)
Definition rehosted : Video :=
  {| video_id := "f5eese9wwl88k4g8"; title := "hosted again"; timestamp := 11;
     storage_ref := NoRef |}.

(** A record without a video id whose storage reference is a string. *)
Definition pinned_by_string : Video :=
  {| video_id := ""; title := "pinned"; timestamp := 7;
     storage_ref := RefString "ipfs:bafybeigdyr" |}.

(** A formatter that rejects an Invalid Date, as date-fns does. *)
Definition formatter (date : option Z) : Outcome string :=
  match date with
  | Some _ => Returned "2 days ago"
  | None => Threw (ErrorObject "Invalid time value")
  end.

End Scenario.

(** * Properties *)

(** ** Optional strings *)

Lemma truthy_Some (s : option string) :
  Js.truthy s = true <-> exists v, s = Some v /\ v <> "".
Proof.
  destruct s as [v|]; simpl.
  - rewrite negb_true_iff. split.
    + intros H. exists v. split; [reflexivity|].
      intros E. subst v. discriminate H.
    + intros (w & E & N). inversion E; subst w.
      apply String.eqb_neq. exact N.
  - split; [discriminate|]. intros (v & E & _). discriminate E.
Qed.

Lemma strict_neq_true (a b : option string) :
  Js.strict_neq a b = true <-> a <> b.
Proof.
  destruct a as [x|], b as [y|]; simpl.
  - rewrite negb_true_iff, String.eqb_neq. split; congruence.
  - split; [discriminate | reflexivity].
  - split; [discriminate | reflexivity].
  - split; [discriminate | congruence].
Qed.

Lemma strict_neq_false (a b : option string) :
  Js.strict_neq a b = false <-> a = b.
Proof.
  destruct (Js.strict_neq a b) eqn:E.
  - apply strict_neq_true in E. split; [discriminate | contradiction].
  - split; [intros _ | reflexivity].
    destruct a as [x|], b as [y|]; simpl in E; try discriminate.
    + apply negb_false_iff, String.eqb_eq in E. now subst.
    + reflexivity.
Qed.

(** ** AuthGuard *)

Section AuthGuardFacts.

Variable Identity : Type.
Variable supportedChainIds : list Z.

Local Abbreviation Signals := (AuthGuard.Signals Identity).
Local Abbreviation effects := (AuthGuard.effects supportedChainIds).
Local Abbreviation clears := (AuthGuard.clears supportedChainIds).
Local Abbreviation violates := (AuthGuard.violates supportedChainIds).
Local Abbreviation unsupported := (AuthGuard.unsupported supportedChainIds).
Local Abbreviation disconnected := AuthGuard.disconnected.
Local Abbreviation switched := AuthGuard.switched.

Lemma when_nonempty (c : bool) : AuthGuard.when c <> [] <-> c = true.
Proof. destruct c; simpl; split; congruence. Qed.

Lemma clears_spec (prev : option Signals) (s : Signals) :
  clears prev s = true <-> effects prev s <> [].
Proof.
  unfold AuthGuard.clears. destruct (effects prev s); split; congruence.
Qed.

Lemma isChainIdSupported_spec (i : Z) :
  AuthGuard.isChainIdSupported supportedChainIds (Some i) = true
  <-> In i supportedChainIds.
Proof.
  simpl. rewrite existsb_exists. split.
  - intros (x & Hx & E). apply Z.eqb_eq in E. now subst.
  - intros H. exists i. split; [exact H | apply Z.eqb_refl].
Qed.

(** The conditions of the three effects, on the signals themselves. *)
Lemma disconnected_spec (s : Signals) :
  disconnected s = true <-> AuthGuard.isConnected s = false.
Proof. unfold AuthGuard.disconnected. apply negb_true_iff. Qed.

Lemma unsupported_spec (s : Signals) :
  unsupported s = true <->
  forall c, AuthGuard.chain s = Some c ->
            ~ In (AuthGuard.chain_id c) supportedChainIds.
Proof.
  unfold AuthGuard.unsupported, AuthGuard.chainId. rewrite negb_true_iff.
  destruct (AuthGuard.chain s) as [c|]; cbn [option_map].
  - split.
    + intros H c' E I. inversion E; subst c'.
      apply isChainIdSupported_spec in I. congruence.
    + intros H.
      destruct (AuthGuard.isChainIdSupported supportedChainIds
                  (Some (AuthGuard.chain_id c))) eqn:E; [|reflexivity].
      apply isChainIdSupported_spec in E. now destruct (H c eq_refl).
  - split; [intros _ c E; discriminate E | reflexivity].
Qed.

Lemma switched_spec (s : Signals) :
  switched s = true <->
  exists a i,
    AuthGuard.address s = Some a /\ AuthGuard.identityAddress s = Some i
    /\ a <> "" /\ i <> "" /\ a <> i.
Proof.
  unfold AuthGuard.switched.
  rewrite !andb_true_iff, !truthy_Some, strict_neq_true. split.
  - intros [[(i & Ei & Ni) (a & Ea & Na)] D]. exists a, i.
    rewrite Ea, Ei in D. repeat split; auto. congruence.
  - intros (a & i & Ea & Ei & Na & Ni & D). rewrite Ea, Ei.
    repeat split; eauto. congruence.
Qed.

Lemma violates_spec (s : Signals) :
  violates s <->
  disconnected s = true \/ unsupported s = true \/ switched s = true.
Proof.
  unfold AuthGuard.violates.
  rewrite disconnected_spec, unsupported_spec, switched_spec. reflexivity.
Qed.

(** When a dependency array differs from the previous one. *)
Lemma same_bool_nat_false (b1 b2 : bool) (c1 c2 : nat) :
  AuthGuard.same_bool_nat (b1, c1) (b2, c2) = false <-> b1 <> b2 \/ c1 <> c2.
Proof.
  unfold AuthGuard.same_bool_nat. cbn [fst snd].
  rewrite andb_false_iff, Bool.eqb_false_iff, Nat.eqb_neq. reflexivity.
Qed.

Lemma same_chain_false (a b : option AuthGuard.Chain) :
  AuthGuard.same_chain a b = false <->
  option_map AuthGuard.chain_ref a <> option_map AuthGuard.chain_ref b.
Proof.
  destruct a as [x|], b as [y|]; simpl.
  - rewrite Nat.eqb_neq. split; congruence.
  - split; [discriminate | reflexivity].
  - split; [discriminate | reflexivity].
  - split; [discriminate | congruence].
Qed.

Lemma same_chain_nat_false (a b : option AuthGuard.Chain) (c1 c2 : nat) :
  AuthGuard.same_chain_nat (a, c1) (b, c2) = false <->
  option_map AuthGuard.chain_ref a <> option_map AuthGuard.chain_ref b
  \/ c1 <> c2.
Proof.
  unfold AuthGuard.same_chain_nat. cbn [fst snd].
  rewrite andb_false_iff, same_chain_false, Nat.eqb_neq. reflexivity.
Qed.

Lemma same_addr_false (a1 a2 i1 i2 : option string) (c1 c2 : nat) :
  AuthGuard.same_addr (a1, c1, i1) (a2, c2, i2) = false <->
  a1 <> a2 \/ c1 <> c2 \/ i1 <> i2.
Proof.
  unfold AuthGuard.same_addr.
  rewrite !andb_false_iff, !negb_false_iff, !strict_neq_true, Nat.eqb_neq.
  tauto.
Qed.

(** An effect clears when it runs and its condition holds. *)
Lemma effect_clears {D : Type} (same : D -> D -> bool) (d deps : D)
    (c : bool) :
  React.useEffect same (Some d) deps (AuthGuard.when c) [] <> []
  <-> same d deps = false /\ c = true.
Proof.
  unfold React.useEffect. destruct (same d deps), c; simpl; split;
    intuition congruence.
Qed.

Lemma app3_nonempty (l1 l2 l3 : list AuthGuard.Action) :
  l1 ++ l2 ++ l3 <> [] <-> l1 <> [] \/ l2 <> [] \/ l3 <> [].
Proof.
  destruct l1, l2, l3; simpl; split; intuition congruence.
Qed.

(** At mount every effect runs. *)
Lemma clear_at_mount (s : Signals) : clears None s = true <-> violates s.
Proof.
  rewrite clears_spec, violates_spec. unfold AuthGuard.effects.
  cbn [option_map React.useEffect].
  rewrite app3_nonempty, !when_nonempty. reflexivity.
Qed.

(** After a later render an effect runs only if its dependencies changed. *)
Lemma clear_later (p s : Signals) :
  clears (Some p) s = true <->
  (disconnected s = true
   /\ (AuthGuard.isConnected p <> AuthGuard.isConnected s
       \/ AuthGuard.clear p <> AuthGuard.clear s))
  \/ (unsupported s = true
      /\ (option_map AuthGuard.chain_ref (AuthGuard.chain p)
          <> option_map AuthGuard.chain_ref (AuthGuard.chain s)
          \/ AuthGuard.clear p <> AuthGuard.clear s))
  \/ (switched s = true
      /\ (AuthGuard.address p <> AuthGuard.address s
          \/ AuthGuard.clear p <> AuthGuard.clear s
          \/ AuthGuard.identityAddress p <> AuthGuard.identityAddress s)).
Proof.
  rewrite clears_spec. unfold AuthGuard.effects. cbn [option_map].
  rewrite app3_nonempty, !effect_clears.
  rewrite same_bool_nat_false, same_chain_nat_false, same_addr_false.
  tauto.
Qed.

(** C1, as the code has it. The session is cleared only under one of the
    three conditions: not connected; the id of the active network not in
    the supported set; wallet address and identity address both set and
    different. At mount it is cleared exactly when one of them holds. After
    a later render it is cleared exactly when one of them holds and a
    dependency of its effect differs from the previous render: the
    connection status or the clear callback for the first, the chain object
    or the clear callback for the second, one of the two addresses or the
    clear callback for the third. So a disconnection and an address switch
    are answered in the cycle in which they occur, and so is an unsupported
    network that comes with a new chain object; a condition that lasts with
    unchanged dependencies is not answered again. *)
Theorem AuthGuard_clears_on_dependency_change :
  (forall s : Signals, clears None s = true <-> violates s)
  /\ (forall p s : Signals,
        clears (Some p) s = true <->
        (AuthGuard.isConnected s = false
         /\ (AuthGuard.isConnected p <> AuthGuard.isConnected s
             \/ AuthGuard.clear p <> AuthGuard.clear s))
        \/ ((forall c, AuthGuard.chain s = Some c ->
                       ~ In (AuthGuard.chain_id c) supportedChainIds)
            /\ (option_map AuthGuard.chain_ref (AuthGuard.chain p)
                <> option_map AuthGuard.chain_ref (AuthGuard.chain s)
                \/ AuthGuard.clear p <> AuthGuard.clear s))
        \/ ((exists a i,
               AuthGuard.address s = Some a
               /\ AuthGuard.identityAddress s = Some i
               /\ a <> "" /\ i <> "" /\ a <> i)
            /\ (AuthGuard.address p <> AuthGuard.address s
                \/ AuthGuard.clear p <> AuthGuard.clear s
                \/ AuthGuard.identityAddress p
                   <> AuthGuard.identityAddress s)))
  /\ (forall p s : Signals, clears (Some p) s = true -> violates s)
  /\ (forall p s : Signals,
        (AuthGuard.isConnected p = true /\ AuthGuard.isConnected s = false)
        \/ ((forall c, AuthGuard.chain s = Some c ->
                       ~ In (AuthGuard.chain_id c) supportedChainIds)
            /\ option_map AuthGuard.chain_ref (AuthGuard.chain p)
               <> option_map AuthGuard.chain_ref (AuthGuard.chain s))
        \/ (~ (exists a i,
                 AuthGuard.address p = Some a
                 /\ AuthGuard.identityAddress p = Some i
                 /\ a <> "" /\ i <> "" /\ a <> i)
            /\ exists a i,
                 AuthGuard.address s = Some a
                 /\ AuthGuard.identityAddress s = Some i
                 /\ a <> "" /\ i <> "" /\ a <> i) ->
        clears (Some p) s = true).
Proof.
  assert (L : forall p s : Signals,
             clears (Some p) s = true <->
             (AuthGuard.isConnected s = false
              /\ (AuthGuard.isConnected p <> AuthGuard.isConnected s
                  \/ AuthGuard.clear p <> AuthGuard.clear s))
             \/ ((forall c, AuthGuard.chain s = Some c ->
                            ~ In (AuthGuard.chain_id c) supportedChainIds)
                 /\ (option_map AuthGuard.chain_ref (AuthGuard.chain p)
                     <> option_map AuthGuard.chain_ref (AuthGuard.chain s)
                     \/ AuthGuard.clear p <> AuthGuard.clear s))
             \/ ((exists a i,
                    AuthGuard.address s = Some a
                    /\ AuthGuard.identityAddress s = Some i
                    /\ a <> "" /\ i <> "" /\ a <> i)
                 /\ (AuthGuard.address p <> AuthGuard.address s
                     \/ AuthGuard.clear p <> AuthGuard.clear s
                     \/ AuthGuard.identityAddress p
                        <> AuthGuard.identityAddress s))).
  { intros p s.
    rewrite clear_later, disconnected_spec, unsupported_spec, switched_spec.
    reflexivity. }
  split; [apply clear_at_mount|]. split; [exact L|]. split.
  - intros p s H. apply L in H. unfold AuthGuard.violates. tauto.
  - intros p s H. apply L.
    destruct H as [[P S] | [[U R] | [P S]]].
    + left. split; [exact S|]. left. congruence.
    + right; left. split; [exact U | now left].
    + right; right. split; [exact S|].
      destruct (AuthGuard.same_addr
                  (AuthGuard.address p, AuthGuard.clear p,
                   AuthGuard.identityAddress p)
                  (AuthGuard.address s, AuthGuard.clear s,
                   AuthGuard.identityAddress s)) eqn:E.
      * exfalso.
        assert (A : AuthGuard.address p = AuthGuard.address s
                    /\ AuthGuard.identityAddress p
                       = AuthGuard.identityAddress s).
        { unfold AuthGuard.same_addr in E.
          rewrite !andb_true_iff, !negb_true_iff, !strict_neq_false in E.
          tauto. }
        destruct A as [A I]. apply P.
        destruct S as (a & i & Ea & Ei & R). exists a, i.
        rewrite A, I. auto.
      * now apply same_addr_false in E.
Qed.

End AuthGuardFacts.

Lemma AuthGuard_clears_on_dependency_change_witness :
  (AuthGuard.isConnected Sample.signed_in = true
   /\ AuthGuard.isConnected Sample.signed_out = false)
  /\ AuthGuard.clears [1] (Some Sample.signed_in) Sample.signed_out = true.
Proof.
  assert (H : AuthGuard.isConnected Sample.signed_in = true
              /\ AuthGuard.isConnected Sample.signed_out = false)
    by (split; reflexivity).
  split; [exact H|].
  exact (proj2 (proj2 (proj2
           (AuthGuard_clears_on_dependency_change unit [1])))
           Sample.signed_in Sample.signed_out (or_introl H)).
Defined.

(** C1, as the claim words it, fails: connected on the unsupported chain 5
    the guard clears at mount; the sign-in that follows changes neither the
    chain object nor the clear callback, so with the network still
    unsupported and an identity now present nothing is cleared, in that
    cycle or in the next. *)
Lemma AuthGuard_violation_not_cleared :
  AuthGuard.violates [1] Scenario.signed_in_on_chain_5
  /\ AuthGuard.identity Scenario.signed_in_on_chain_5 = Some tt
  /\ AuthGuard.clears [1] (Some Scenario.on_chain_5)
       Scenario.signed_in_on_chain_5 = false
  /\ AuthGuard.commits [1] None
       [Scenario.on_chain_5; Scenario.signed_in_on_chain_5;
        Scenario.signed_in_on_chain_5]
     = [[AuthGuard.ClearSession]; []; []].
Proof.
  split; [|repeat split].
  right; left. intros c E. inversion E; subst c. simpl.
  intros [H | []]. discriminate H.
Qed.

Section AuthGuardRender.

Variable Identity : Type.

(** C2, as the code has it. While identity initialization is in progress
    the guard renders the protected children, whatever the connection and
    the identity are. Once initialization is complete it renders the login
    page if and only if the wallet is not connected or there is no identity,
    and the protected children otherwise. *)
Theorem AuthGuard_render_decision (s : AuthGuard.Signals Identity) :
  (AuthGuard.isInitializing s = true ->
     AuthGuard.render s = AuthGuard.Children)
  /\ (AuthGuard.isInitializing s = false ->
        (AuthGuard.render s = AuthGuard.LoginPage <->
           AuthGuard.isConnected s = false \/ AuthGuard.identity s = None)
        /\ (AuthGuard.render s = AuthGuard.Children <->
              AuthGuard.isConnected s = true
              /\ AuthGuard.identity s <> None)).
Proof.
  unfold AuthGuard.render.
  destruct (AuthGuard.isInitializing s), (AuthGuard.isConnected s),
    (AuthGuard.identity s); simpl;
    repeat split; intros; try discriminate; try tauto; try congruence;
    intuition congruence.
Qed.

End AuthGuardRender.

(** C2, as the claim words it, fails: with initialization in progress, no
    wallet connected and no identity, the guard already renders the
    protected children. *)
Lemma AuthGuard_render_while_initializing :
  AuthGuard.isInitializing Sample.initializing = true
  /\ AuthGuard.isConnected Sample.initializing = false
  /\ AuthGuard.identity Sample.initializing = None
  /\ AuthGuard.render Sample.initializing = AuthGuard.Children.
Proof. repeat split. Qed.

Lemma AuthGuard_render_decision_witness :
  AuthGuard.isInitializing Sample.signed_out = false
  /\ AuthGuard.isConnected Sample.signed_out = false
  /\ AuthGuard.render Sample.signed_out = AuthGuard.LoginPage.
Proof.
  split; [reflexivity|]. split; [reflexivity|].
  exact (proj2 (proj1 (proj2 (AuthGuard_render_decision unit
                                Sample.signed_out) eq_refl))
           (or_introl eq_refl)).
Defined.

(** ** VideoGrid: the loader *)

Import VideoGrid.

(** The tags that select the tag-filtered query. *)
Lemma filtered_spec (tag : option string) :
  filtered tag = true <->
  exists t, tag = Some t /\ t <> "" /\ t <> "all" /\ t <> "All".
Proof.
  unfold filtered.
  rewrite !andb_true_iff, truthy_Some, !strict_neq_true. split.
  - intros [[(t & E & N) A] B]. exists t. subst tag.
    repeat split; congruence.
  - intros (t & E & N & A & B). subst tag.
    repeat split; try congruence. now exists t.
Qed.

(** What the tag branch of [query] does: one call, any failure swallowed. *)
Lemma query_filtered (actor : Actor) (t : string) :
  filtered (Some t) = true ->
  query actor (Some t) =
  ([ListVideosByTag (Js.toLowerCase t)],
   Returned match list_videos_by_tag actor (Js.toLowerCase t) with
            | Resolves (Some l) => Some l
            | Resolves None => Some []
            | Rejects _ => Some []
            end).
Proof.
  intros F. unfold query. rewrite F. simpl.
  destruct (list_videos_by_tag actor (Js.toLowerCase t)) as [e | [l|]];
    reflexivity.
Qed.

(** What the search branch of [query] does. *)
Lemma query_unfiltered (actor : Actor) (tag : option string) :
  filtered tag = false ->
  query actor tag =
  match search_videos actor with
  | Some search =>
      ([SearchVideos "" [] []],
       Returned match search "" [] [] with
                | Resolves v => v
                | Rejects _ => Some []
                end)
  | None => ([], Returned (Some []))
  end.
Proof.
  intros F. unfold query. rewrite F.
  destruct (search_videos actor) as [search|]; [|reflexivity].
  simpl. destruct (search "" [] []) as [e | v]; reflexivity.
Qed.

(** [query] itself never throws. *)
Lemma query_returns (actor : Actor) (tag : option string) :
  exists v, snd (query actor tag) = Returned v.
Proof.
  destruct (filtered tag) eqn:F.
  - pose proof F as F'. apply filtered_spec in F' as (t & -> & _).
    rewrite query_filtered by exact F. eexists. reflexivity.
  - rewrite query_unfiltered by exact F.
    destruct (search_videos actor); eexists; reflexivity.
Qed.

Lemma sorted_if_any_Some (l : list Video) :
  sorted_if_any (Some l) = Some (sort l).
Proof. destruct l; reflexivity. Qed.

(** [fetchBody] after [query]: the list is sorted and handed on, a nullish
    value makes the [length] read throw. *)
Lemma fetchBody_spec (actor : Actor) (tag : option string) :
  fetchBody actor tag =
  (fst (query actor tag),
   match snd (query actor tag) with
   | Returned (Some l) => Returned (sort l)
   | Returned None => Threw nullish_length
   | Threw err => Threw err
   end).
Proof.
  unfold fetchBody. destruct (query actor tag) as [log [[l|]|err]].
  - unfold bind at 1. cbv zeta. rewrite sorted_if_any_Some.
    unfold bind, length_of, ret. now rewrite !app_nil_r.
  - unfold bind. simpl. now rewrite app_nil_r.
  - reflexivity.
Qed.


(** *** Sorting *)

Lemma insert_perm (x : Video) (l : list Video) :
  Permutation (x :: l) (insert x l).
Proof.
  induction l as [|y r IH]; simpl; [apply Permutation_refl|].
  destruct (compareFn x y <=? 0); [apply Permutation_refl|].
  eapply Permutation_trans; [apply perm_swap|].
  apply perm_skip. exact IH.
Qed.

Lemma sort_perm (l : list Video) : Permutation l (sort l).
Proof.
  induction l as [|x r IH]; simpl; [constructor|].
  eapply Permutation_trans; [|apply insert_perm].
  apply perm_skip. exact IH.
Qed.

Lemma compareFn_nonpos (a b : Video) :
  compareFn a b <= 0 <-> not_older a b.
Proof. unfold compareFn, not_older. lia. Qed.

Lemma not_older_trans (a b c : Video) :
  not_older a b -> not_older b c -> not_older a c.
Proof. unfold not_older. lia. Qed.

Lemma insert_Forall (P : Video -> Prop) (x : Video) (l : list Video) :
  P x -> Forall P l -> Forall P (insert x l).
Proof.
  intros Hx Hl. eapply Permutation_Forall; [apply insert_perm|].
  constructor; assumption.
Qed.

Lemma insert_sorted (x : Video) (l : list Video) :
  StronglySorted not_older l -> StronglySorted not_older (insert x l).
Proof.
  induction 1 as [|y r Hs IH Hy]; simpl.
  - repeat constructor.
  - destruct (compareFn x y <=? 0) eqn:C.
    + apply Z.leb_le, compareFn_nonpos in C.
      constructor; [constructor; assumption|].
      constructor; [exact C|].
      eapply Forall_impl; [|exact Hy].
      intros z Hz. eapply not_older_trans; eassumption.
    + apply Z.leb_gt in C.
      constructor; [exact IH|].
      apply insert_Forall; [|exact Hy].
      unfold compareFn in C. unfold not_older. lia.
Qed.

Lemma sort_sorted (l : list Video) : StronglySorted not_older (sort l).
Proof.
  induction l as [|x r IH]; simpl; [constructor|].
  apply insert_sorted. exact IH.
Qed.

(** [Number(...)] is the identity on the integers a binary64 holds
    exactly. *)
Lemma Number_exact (b : Z) : Z.abs b < 2 ^ 53 -> Float.Number b = b.
Proof.
  intros H. unfold Float.Number.
  destruct (Z.abs b =? 0) eqn:E0.
  - apply Z.eqb_eq in E0. rewrite E0. reflexivity.
  - apply Z.eqb_neq in E0.
    assert (Z.log2 (Z.abs b) < 53) by (apply Z.log2_lt_pow2; lia).
    destruct (Z.log2 (Z.abs b) - 52 <=? 0) eqn:E; [reflexivity|].
    apply Z.leb_gt in E. lia.
Qed.

(** *** The effect that starts a fetch *)

Lemma fetchVideos_spec (actor : Actor) (tag : option string) (st : GridState) :
  fetchVideos (Some actor) tag st =
  (fst (fetchBody actor tag),
   setLoading false
     match snd (fetchBody actor tag) with
     | Returned videoList => setVideos videoList st
     | Threw err =>
         setVideos []
           (setError (Some ("Failed to load videos: " ++ describe err)%string)
              st)
     end).
Proof. unfold fetchVideos. destruct (fetchBody actor tag). reflexivity. Qed.

Lemma loadVideos_new (actor : Actor) (tag : option string) (g : Grid) :
  nested_actor actor = true ->
  is_new (prevFetchIdRef g) (fetchId actor tag) = true ->
  loadVideos (Some actor) tag g =
  (fst (fetchVideos (Some actor) tag
          (setError None (setLoading true (state g)))),
   {| state := snd (fetchVideos (Some actor) tag
                      (setError None (setLoading true (state g))));
      prevFetchIdRef := Some (fetchId actor tag) |}).
Proof.
  intros N I. unfold loadVideos. rewrite N, I. simpl negb. cbv iota.
  destruct (fetchVideos _ _ _). reflexivity.
Qed.

Lemma loadVideos_same (actor : Actor) (tag : option string) (g : Grid) :
  is_new (prevFetchIdRef g) (fetchId actor tag) = false ->
  loadVideos (Some actor) tag g = ([], g).
Proof.
  intros I. unfold loadVideos. rewrite I.
  destruct (negb (nested_actor actor)); reflexivity.
Qed.

Lemma is_new_false (prev : option string) (id : string) :
  is_new prev id = false <-> prev = Some id.
Proof.
  destruct prev as [p|]; simpl.
  - rewrite negb_false_iff, String.eqb_eq. split; congruence.
  - split; discriminate.
Qed.

(** A commit whose effect body would do nothing does nothing, whether the
    dependencies changed or not. *)
Lemma commit_idle (prev : option (option Actor * option string))
    (actor : option Actor) (tag : option string) (g : Grid) :
  loadVideos actor tag g = ([], g) -> commit prev actor tag g = ([], g).
Proof.
  intros L. unfold commit, React.useEffect. rewrite L.
  destruct (option_map _ prev); [destruct (same_deps _ _)|]; reflexivity.
Qed.

(** The calls of a fetch, by the branch the tag selects. *)
Lemma fetchBody_calls (actor : Actor) (tag : option string) :
  fst (fetchBody actor tag) =
  if filtered tag then
    match tag with
    | Some t => [ListVideosByTag (Js.toLowerCase t)]
    | None => []
    end
  else
    match search_videos actor with
    | Some _ => [SearchVideos "" [] []]
    | None => []
    end.
Proof.
  rewrite fetchBody_spec. cbn [fst]. destruct (filtered tag) eqn:F.
  - pose proof F as F'. apply filtered_spec in F' as (t & -> & _).
    now rewrite query_filtered.
  - rewrite query_unfiltered by exact F.
    destruct (search_videos actor); reflexivity.
Qed.

(** The state a fetch started by the effect leaves behind. *)
Lemma loadVideos_state (actor : Actor) (tag : option string) (g : Grid) :
  nested_actor actor = true ->
  is_new (prevFetchIdRef g) (fetchId actor tag) = true ->
  state (snd (loadVideos (Some actor) tag g)) =
  match snd (fetchBody actor tag) with
  | Returned videoList =>
      {| videos := videoList; loading := false; error := None |}
  | Threw err =>
      {| videos := []; loading := false;
         error := Some ("Failed to load videos: " ++ describe err)%string |}
  end.
Proof.
  intros N I. rewrite loadVideos_new by assumption. cbn [snd state].
  rewrite fetchVideos_spec. cbn [snd].
  destruct (snd (fetchBody actor tag)); reflexivity.
Qed.


(** C3, as the code has it. With a ready client, a fetch runs only when the
    fetch id is new. It then makes exactly one call, the tag-filtered query
    with the tag lower-cased, when the tag is a non-empty string of ASCII
    characters other than "all" and "All"; for an absent, empty, "all" or
    "All" tag it never makes the tag-filtered query, and makes the
    unfiltered search with empty arguments once if the client has that
    function, no call otherwise. *)
Theorem loadVideos_dispatch (actor : Actor) (tag : option string) (g : Grid) :
  nested_actor actor = true ->
  (is_new (prevFetchIdRef g) (fetchId actor tag) = false ->
     fst (loadVideos (Some actor) tag g) = [])
  /\ (is_new (prevFetchIdRef g) (fetchId actor tag) = true ->
      (forall t, tag = Some t -> Js.is_ascii t = true ->
         t <> "" -> t <> "all" -> t <> "All" ->
         fst (loadVideos (Some actor) tag g)
         = [ListVideosByTag (Js.toLowerCase t)])
      /\ (tag = None \/ tag = Some "" \/ tag = Some "all" \/ tag = Some "All" ->
          fst (loadVideos (Some actor) tag g)
          = match search_videos actor with
            | Some _ => [SearchVideos "" [] []]
            | None => []
            end)
      /\ (tag = Some "Comedy" ->
          fst (loadVideos (Some actor) tag g) = [ListVideosByTag "comedy"])).
Proof.
  intros N. split.
  - intros I. now rewrite loadVideos_same.
  - intros I. rewrite loadVideos_new by assumption. cbn [fst].
    rewrite fetchVideos_spec. cbn [fst]. rewrite fetchBody_calls.
    split; [|split].
    + intros t -> _ N1 N2 N3.
      assert (F : filtered (Some t) = true)
        by (apply filtered_spec; exists t; auto).
      now rewrite F.
    + intros [-> | [-> | [-> | ->]]]; reflexivity.
    + intros ->. reflexivity.
Qed.

Lemma loadVideos_dispatch_witness :
  (nested_actor Sample.backend = true
   /\ is_new (prevFetchIdRef mounted)
        (fetchId Sample.backend (Some "Comedy")) = true
   /\ Js.is_ascii "Comedy" = true)
  /\ fst (loadVideos (Some Sample.backend) (Some "Comedy") mounted)
     = [ListVideosByTag "comedy"].
Proof.
  split; [repeat split|].
  exact (proj1 (proj2
           (loadVideos_dispatch Sample.backend (Some "Comedy") mounted
              eq_refl)
           eq_refl)
         "Comedy" eq_refl eq_refl
         ltac:(discriminate) ltac:(discriminate) ltac:(discriminate)).
Defined.

(** C3, as the claim words it, fails in its second half and on the empty
    tag: a client without [search_videos] is not called at all for an absent
    tag, and the empty string, a tag that is neither "all" nor "All", goes
    to the unfiltered search instead of the tag-filtered query. *)
Lemma loadVideos_dispatch_gaps :
  fst (loadVideos (Some Sample.searchless) None mounted) = []
  /\ fst (loadVideos (Some Sample.backend) (Some "") mounted)
     = [SearchVideos "" [] []].
Proof. split; reflexivity. Qed.



(** The list a fetch stores when the dispatched query resolved to [vs]. *)
Lemma fetchVideos_stores (actor : Actor) (tag : option string)
    (st : GridState) (vs : list Video) :
  (filtered tag = true
   /\ exists t, tag = Some t
        /\ list_videos_by_tag actor (Js.toLowerCase t) = Resolves (Some vs))
  \/ (filtered tag = false
      /\ exists search, search_videos actor = Some search
           /\ search "" [] [] = Resolves (Some vs)) ->
  videos (snd (fetchVideos (Some actor) tag st)) = sort vs.
Proof.
  rewrite fetchVideos_spec, fetchBody_spec. cbn [snd].
  intros [(F & t & -> & R) | (F & search & S & R)].
  - rewrite query_filtered by exact F. cbn [snd]. rewrite R. reflexivity.
  - rewrite query_unfiltered by exact F. rewrite S. cbn [snd]. rewrite R.
    reflexivity.
Qed.

(** C5. The collection a fetch stores is a permutation of the list the
    backend resolved to, sorted descending by [Number(timestamp)] (and so
    by the timestamps themselves while they are below 2^53); backend
    timestamps 5, 20, 1 come out as 20, 5, 1. *)
Theorem fetchVideos_sorted_newest_first :
  (forall (actor : Actor) (tag : option string) (st : GridState)
          (vs : list Video),
     (filtered tag = true
      /\ exists t, tag = Some t
           /\ list_videos_by_tag actor (Js.toLowerCase t) = Resolves (Some vs))
     \/ (filtered tag = false
         /\ exists search, search_videos actor = Some search
              /\ search "" [] [] = Resolves (Some vs)) ->
     Permutation vs (videos (snd (fetchVideos (Some actor) tag st)))
     /\ StronglySorted not_older
          (videos (snd (fetchVideos (Some actor) tag st)))
     /\ (Forall (fun v => Z.abs (timestamp v) < 2 ^ 53) vs ->
         StronglySorted (fun a b => timestamp b <= timestamp a)
           (videos (snd (fetchVideos (Some actor) tag st)))))
  /\ map timestamp Sample.catalogue = [5; 20; 1]
  /\ map timestamp
       (videos (snd (fetchVideos (Some Sample.backend) None (state mounted))))
     = [20; 5; 1].
Proof.
  split; [|split; reflexivity].
  intros actor tag st vs H.
  rewrite (fetchVideos_stores actor tag st vs H).
  split; [apply sort_perm|]. split; [apply sort_sorted|].
  intros B.
  assert (B' : Forall (fun v => Z.abs (timestamp v) < 2 ^ 53) (sort vs))
    by (eapply Permutation_Forall; [apply sort_perm | exact B]).
  pose proof (sort_sorted vs) as S.
  induction S as [|x r Hs IH Hx]; constructor.
  - apply IH. now inversion B'.
  - inversion B' as [|? ? Bx Br]; subst.
    rewrite Forall_forall in *. intros y Hy.
    specialize (Hx y Hy). unfold not_older in Hx.
    rewrite !Number_exact in Hx by auto. exact Hx.
Qed.

Lemma fetchVideos_sorted_newest_first_witness :
  (filtered None = false
   /\ exists search, search_videos Sample.backend = Some search
        /\ search "" [] [] = Resolves (Some Sample.catalogue))
  /\ Permutation Sample.catalogue
       (videos (snd (fetchVideos (Some Sample.backend) None (state mounted)))).
Proof.
  assert (H : filtered None = false
              /\ exists search, search_videos Sample.backend = Some search
                   /\ search "" [] [] = Resolves (Some Sample.catalogue)).
  { split; [reflexivity|]. eexists. split; reflexivity. }
  split; [exact H|].
  exact (proj1 (proj1 fetchVideos_sorted_newest_first
                  Sample.backend None (state mounted) Sample.catalogue
                  (or_intror H))).
Defined.

(** C6, as the code has it. Without a backend client no backend call is
    made. [fetchVideos] only clears the loading flag and leaves the
    collection and the error as they were, so it yields Loaded(empty
    collection) when the collection was empty and no error was set. The
    loading effect does not invoke it at all while the client or its nested
    actor is missing, and leaves the grid as it is. *)
Theorem no_client_no_fetch (tag : option string) (st : GridState) (g : Grid)
    (prev : option (option Actor * option string)) :
  fetchVideos None tag st = ([], setLoading false st)
  /\ (videos st = [] -> Js.truthy (error st) = false ->
      fetchState (snd (fetchVideos None tag st)) = Loaded [])
  /\ loadVideos None tag g = ([], g)
  /\ commit prev None tag g = ([], g)
  /\ (forall actor, nested_actor actor = false ->
        commit prev (Some actor) tag g = ([], g)).
Proof.
  split; [reflexivity|]. split; [|split; [reflexivity|split]].
  - intros V E. unfold fetchState. simpl. rewrite V.
    destruct (error st) as [m|]; [|reflexivity].
    simpl in E. apply negb_false_iff in E. now rewrite E.
  - now apply commit_idle.
  - intros actor N. apply commit_idle. unfold loadVideos. now rewrite N.
Qed.

Lemma no_client_no_fetch_witness :
  videos (state mounted) = []
  /\ Js.truthy (error (state mounted)) = false
  /\ fetchState (snd (fetchVideos None (Some "Comedy") (state mounted)))
     = Loaded [].
Proof.
  split; [reflexivity|]. split; [reflexivity|].
  exact (proj1 (proj2
           (no_client_no_fetch (Some "Comedy") (state mounted) mounted None))
           eq_refl eq_refl).
Defined.

(** C6, as the claim words it, fails: a grid mounted without a client makes
    no fetch and stays in the Loading state, and [fetchVideos] invoked
    without a client on a grid that shows videos leaves them in place. *)
Lemma no_client_not_loaded_empty :
  commit None None None mounted = ([], mounted)
  /\ fetchState (state mounted) = Loading
  /\ renderBranch (state mounted) = Skeleton
  /\ fetchState (snd (fetchVideos None None Sample.showing))
     = Loaded [Sample.video "b" 20].
Proof. repeat split. Qed.

Lemma fetchId_keyed_all (actor : Actor) (tag : option string) :
  keyed_all tag -> fetchId actor tag = fetchId actor None.
Proof. intros [-> | [-> | ->]]; reflexivity. Qed.

Lemma is_new_refl (id : string) : is_new (Some id) id = false.
Proof. simpl. now rewrite String.eqb_refl. Qed.

Lemma fetchId_All_distinct (actor : Actor) :
  fetchId actor (Some "All") <> fetchId actor None.
Proof.
  unfold fetchId. destruct (nested_actor actor); simpl; discriminate.
Qed.

(** C9. An absent tag, the empty tag and "all" have the same fetch id, so a
    commit that moves the tag among them starts no fetch and leaves the grid
    as it is. "All" has another fetch id: moving to it from one of the three
    starts a new fetch, and that fetch takes the unfiltered-search path. *)
Theorem fetchId_sentinel_tags (actor : Actor) :
  (fetchId actor None = fetchId actor (Some "")
   /\ fetchId actor (Some "") = fetchId actor (Some "all"))
  /\ fetchId actor (Some "All") <> fetchId actor (Some "all")
  /\ (forall prev before after g,
        keyed_all before -> keyed_all after ->
        prevFetchIdRef g = Some (fetchId actor before) ->
        commit prev (Some actor) after g = ([], g))
  /\ (forall before g,
        keyed_all before -> nested_actor actor = true ->
        prevFetchIdRef g = Some (fetchId actor before) ->
        commit (Some (Some actor, before)) (Some actor) (Some "All") g
        = (fst (fetchVideos (Some actor) (Some "All")
                  (setError None (setLoading true (state g)))),
           {| state := snd (fetchVideos (Some actor) (Some "All")
                              (setError None (setLoading true (state g))));
              prevFetchIdRef := Some (fetchId actor (Some "All")) |})
        /\ filtered (Some "All") = false
        /\ fst (fetchVideos (Some actor) (Some "All")
                  (setError None (setLoading true (state g))))
           = match search_videos actor with
             | Some _ => [SearchVideos "" [] []]
             | None => []
             end).
Proof.
  split; [split; reflexivity|]. split.
  { rewrite (fetchId_keyed_all actor (Some "all"))
      by (right; right; reflexivity).
    apply fetchId_All_distinct. }
  split.
  - intros prev before after g B A P.
    apply commit_idle, loadVideos_same. rewrite P.
    rewrite (fetchId_keyed_all actor before B).
    rewrite (fetchId_keyed_all actor after A). apply is_new_refl.
  - intros before g B N P.
    assert (D : same_deps (deps (Some actor) before)
                  (deps (Some actor) (Some "All")) = false).
    { unfold same_deps, deps. cbn [fst snd option_map].
      rewrite Nat.eqb_refl.
      destruct B as [-> | [-> | ->]]; reflexivity. }
    assert (I : is_new (prevFetchIdRef g) (fetchId actor (Some "All")) = true).
    { destruct (is_new _ _) eqn:E; [reflexivity|].
      apply is_new_false in E. rewrite P in E. inversion E as [E'].
      rewrite (fetchId_keyed_all actor before B) in E'.
      symmetry in E'. now apply fetchId_All_distinct in E'. }
    split; [|split; [reflexivity|]].
    + unfold commit, React.useEffect. cbn [option_map fst snd]. rewrite D.
      now apply loadVideos_new.
    + rewrite fetchVideos_spec. cbn [fst]. now rewrite fetchBody_calls.
Qed.

Lemma fetchId_sentinel_tags_witness :
  keyed_all None /\ keyed_all (Some "all")
  /\ prevFetchIdRef (snd (loadVideos (Some Sample.backend) None mounted))
     = Some (fetchId Sample.backend None)
  /\ commit (Some (Some Sample.backend, None)) (Some Sample.backend)
       (Some "all") (snd (loadVideos (Some Sample.backend) None mounted))
     = ([], snd (loadVideos (Some Sample.backend) None mounted)).
Proof.
  assert (A : keyed_all None) by (left; reflexivity).
  assert (B : keyed_all (Some "all")) by (right; right; reflexivity).
  split; [exact A|]. split; [exact B|]. split; [reflexivity|].
  exact (proj1 (proj2 (proj2 (fetchId_sentinel_tags Sample.backend)))
           (Some (Some Sample.backend, None)) None (Some "all")
           (snd (loadVideos (Some Sample.backend) None mounted))
           A B eq_refl).
Defined.

(** C10, as the code has it. When the outer handler of [fetchVideos] runs,
    that is when the loader enters Failed(message), the collection is set
    to the empty list together with the error, whatever it held before; and
    a grid that a fetch started by the effect leaves in the Failed state,
    no other fetch settling in between, holds no videos. *)
Theorem failed_resets_videos (actor : Actor) (tag : option string) :
  (forall (st : GridState) (err : Thrown),
     snd (fetchBody actor tag) = Threw err ->
     error (snd (fetchVideos (Some actor) tag st))
     = Some ("Failed to load videos: " ++ describe err)%string
     /\ fetchState (snd (fetchVideos (Some actor) tag st))
        = Failed ("Failed to load videos: " ++ describe err)%string
     /\ videos (snd (fetchVideos (Some actor) tag st)) = [])
  /\ (forall (g : Grid) (m : string),
        nested_actor actor = true ->
        is_new (prevFetchIdRef g) (fetchId actor tag) = true ->
        fetchState (state (snd (loadVideos (Some actor) tag g))) = Failed m ->
        videos (state (snd (loadVideos (Some actor) tag g))) = []).
Proof.
  split.
  - intros st err T. rewrite fetchVideos_spec, T. cbn [snd].
    repeat split.
  - intros g m N I. rewrite loadVideos_state by assumption.
    destruct (snd (fetchBody actor tag)) as [l | err];
      [discriminate | reflexivity].
Qed.

Lemma failed_resets_videos_witness :
  snd (fetchBody Sample.voiding None) = Threw nullish_length
  /\ videos Sample.showing = [Sample.video "b" 20]
  /\ videos (snd (fetchVideos (Some Sample.voiding) None Sample.showing)) = [].
Proof.
  split; [reflexivity|]. split; [reflexivity|].
  exact (proj2 (proj2
           (proj1 (failed_resets_videos Sample.voiding None)
              Sample.showing nullish_length eq_refl))).
Defined.

(** C10, as the claim words it, fails when fetches overlap: with the fetch
    for the tag "Comedy" in flight the tag is removed; the search that the
    second fetch makes resolves to [undefined], so it fails and empties the
    collection; the first fetch settles after it and stores its three
    videos without touching the error. The grid is then in the Failed state
    with the collection of the earlier fetch. *)
Lemma failed_with_stale_videos :
  fetchState
    (GridView.settle_both Scenario.flaky (Some "Comedy") Scenario.flaky None
       (state mounted))
  = Failed ("Failed to load videos: " ++ describe nullish_length)%string
  /\ videos
       (GridView.settle_both Scenario.flaky (Some "Comedy") Scenario.flaky
          None (state mounted))
     = [Sample.video "b" 20; Sample.video "a" 5; Sample.video "c" 1].
Proof. split; reflexivity. Qed.

(** ** VideoGrid: display helpers *)

Lemma substring_all (s : string) : String.substring 0 (String.length s) s = s.
Proof. induction s as [|c r IH]; simpl; [reflexivity | now rewrite IH]. Qed.

Lemma cid_of_ipfs (cid : string) : cid_of ("ipfs:" ++ cid) = cid.
Proof. unfold cid_of. simpl. rewrite Nat.sub_0_r. apply substring_all. Qed.

Lemma prefix_ipfs (s : string) :
  String.prefix "ipfs:" s = true <-> exists cid, s = ("ipfs:" ++ cid)%string.
Proof.
  split.
  - intros H.
    do 5 (destruct s as [|? s]; [discriminate H|];
          cbn [String.prefix] in H;
          match type of H with
          | match ascii_dec ?a ?b with _ => _ end = true =>
              destruct (ascii_dec a b) as [<-|]; [|discriminate H]
          end).
    exists s. reflexivity.
  - intros (cid & ->). apply String.prefix_correct. simpl.
    now destruct cid.
Qed.

(** The storage reference that counts: the string itself, or the first
    element of the array. *)
Lemma storageRef_field (r : StorageRef) (s : string) :
  storageRef r = Some s <->
  r = RefString s \/ exists rest, r = RefArray (s :: rest).
Proof.
  destruct r as [|s'|[|s' rest]]; simpl; split.
  - discriminate.
  - intros [H | (rest & H)]; discriminate H.
  - intros H. inversion H. now left.
  - intros [H | (rest & H)]; [now inversion H | discriminate H].
  - discriminate.
  - intros [H | (rest & H)]; discriminate H.
  - intros H. inversion H. right. now exists rest.
  - intros [H | (rest' & H)]; [discriminate H | now inversion H].
Qed.

(** C7. The thumbnail is chosen in strict priority: a video id that is set
    gives the playback-id URL whatever the storage reference is; otherwise a
    storage reference (a string, or the first element of an array) that
    begins with "ipfs:" gives the gateway URL, on the configured gateway
    domain or on the literal default when the variable is unset; otherwise
    the static fallback image. *)
Theorem thumbnail_priority (env : option string) (video : Video) :
  (video_id video <> "" ->
     getVideoThumbnail env video
     = ("https://vod-cdn.lp-playback.studio/hls/" ++ video_id video
        ++ "/thumbnails/keyframes_0.jpg")%string)
  /\ (video_id video = "" ->
      (forall cid,
         storage_ref video = RefString ("ipfs:" ++ cid)
         \/ (exists rest,
               storage_ref video = RefArray (("ipfs:" ++ cid)%string :: rest)) ->
         getVideoThumbnail env video
         = ("https://" ++ Js.or_else env defaultGateway ++ "/ipfs/" ++ cid
            ++ "/thumbnail.jpg")%string)
      /\ ((forall cid,
             storage_ref video <> RefString ("ipfs:" ++ cid)
             /\ forall rest,
                  storage_ref video
                  <> RefArray (("ipfs:" ++ cid)%string :: rest)) ->
          getVideoThumbnail env video = "/header.png"))
  /\ (env = None ->
      Js.or_else env defaultGateway = "salmon-worthy-hawk-798.mypinata.cloud")
  /\ (forall domain, env = Some domain -> domain <> "" ->
      Js.or_else env defaultGateway = domain).
Proof.
  unfold getVideoThumbnail. repeat split.
  - intros N. apply String.eqb_neq in N. simpl. now rewrite N.
  - intros cid R. apply storageRef_field in R as S.
    rewrite H. simpl Js.truthy. cbv iota.
    assert (T : has_storage_ref (storage_ref video) = true).
    { destruct R as [R | (rest & R)]; rewrite R; reflexivity. }
    rewrite T, S.
    assert (P : String.prefix "ipfs:" ("ipfs:" ++ cid) = true)
      by (apply prefix_ipfs; now exists cid).
    rewrite P. simpl Js.truthy. simpl andb. cbv iota.
    rewrite cid_of_ipfs. reflexivity.
  - intros S. rewrite H. simpl Js.truthy. cbv iota.
    destruct (has_storage_ref (storage_ref video)); [|reflexivity].
    destruct (storageRef (storage_ref video)) as [s|] eqn:E; [|reflexivity].
    destruct (String.prefix "ipfs:" s) eqn:P.
    + apply prefix_ipfs in P as (cid & ->).
      apply storageRef_field in E. destruct (S cid) as [S1 S2].
      destruct E as [E | (rest & E)]; [now destruct S1 | now destruct (S2 rest)].
    + now rewrite andb_false_r.
  - intros ->. reflexivity.
  - intros domain -> N. simpl. apply String.eqb_neq in N. now rewrite N.
Qed.

Lemma thumbnail_priority_witness :
  (video_id Scenario.pinned_by_string = ""
   /\ storage_ref Scenario.pinned_by_string = RefString "ipfs:bafybeigdyr")
  /\ getVideoThumbnail None Scenario.pinned_by_string
     = "https://salmon-worthy-hawk-798.mypinata.cloud/ipfs/bafybeigdyr/thumbnail.jpg"
  /\ (video_id Sample.pinned = ""
      /\ storage_ref Sample.pinned = RefArray ["ipfs:bafybeigdyr"])
  /\ getVideoThumbnail None Sample.pinned
     = "https://salmon-worthy-hawk-798.mypinata.cloud/ipfs/bafybeigdyr/thumbnail.jpg"
  /\ video_id Sample.hosted <> ""
  /\ getVideoThumbnail None Sample.hosted
     = "https://vod-cdn.lp-playback.studio/hls/f5eese9wwl88k4g8/thumbnails/keyframes_0.jpg".
Proof.
  assert (N : video_id Sample.hosted <> "") by discriminate.
  split; [split; reflexivity|]. split.
  - exact (proj1 (proj1 (proj2
             (thumbnail_priority None Scenario.pinned_by_string)) eq_refl)
             "bafybeigdyr" (or_introl eq_refl)).
  - split; [split; reflexivity|]. split.
    + exact (proj1 (proj1 (proj2 (thumbnail_priority None Sample.pinned))
                      eq_refl)
               "bafybeigdyr" (or_intror (ex_intro _ [] eq_refl))).
    + split; [exact N|].
      exact (proj1 (thumbnail_priority None Sample.hosted) N).
Defined.

(** *** View counts: binary64 division and [toFixed(1)] *)

(** Rounding to nearest moves a quotient by at most half a unit. *)
Lemma nearest_even_error (q r den : Z) :
  0 <= r < den ->
  2 * Z.abs (Float.nearest_even q r den * den - (q * den + r)) <= den.
Proof.
  intros H. unfold Float.nearest_even.
  destruct (2 * r <? den) eqn:A; [apply Z.ltb_lt in A; lia|].
  apply Z.ltb_ge in A.
  destruct (den <? 2 * r) eqn:B; [apply Z.ltb_lt in B; lia|].
  apply Z.ltb_ge in B.
  destruct (Z.even q); lia.
Qed.

(** The quotient of a count below 2^53 by [d]: its exponent is at most
    [- log2 d], and the mantissa is the scaled ratio rounded to nearest. *)
Lemma div_spec (c d : Z) :
  0 < d -> 0 < c < 2 ^ 53 ->
  exists k, Z.log2 d <= k
    /\ Float.expo (Float.div c d) = - k
    /\ 2 * Z.abs (Float.mant (Float.div c d) * d - c * 2 ^ k) <= d.
Proof.
  intros Hd Hc.
  assert (L : Z.log2 c < 53) by (apply Z.log2_lt_pow2; lia).
  pose proof (Z.log2_nonneg d) as Ld.
  unfold Float.div. cbv zeta.
  set (e1 := Z.log2 c - Z.log2 d - 52).
  set (e := if _ <? 2 ^ 52 then e1 - 1 else e1).
  assert (He : e <= - Z.log2 d) by (subst e e1; destruct (_ <? _); lia).
  exists (- e). split; [lia|]. cbn [Float.expo Float.mant].
  split; [lia|].
  replace (Z.max 0 e) with 0 by lia.
  replace (Z.max 0 (- e)) with (- e) by lia.
  rewrite Z.pow_0_r, Z.mul_1_r.
  pose proof (Z.mod_pos_bound (c * 2 ^ (- e)) d Hd) as Hr.
  pose proof (nearest_even_error (c * 2 ^ (- e) / d)
                ((c * 2 ^ (- e)) mod d) d Hr) as N.
  rewrite (Z.mul_comm (c * 2 ^ (- e) / d) d) in N.
  rewrite <- Z.div_mod in N by lia. exact N.
Qed.

(** The tenths of [c / (10 * D)] for an even [D = 2 * H]: below the tie the
    count over [D] rounded down, above it rounded up, and at the tie one of
    the two, as the binary64 quotient falls. *)
Lemma tenths_div (c D H : Z) :
  0 < H -> D = 2 * H -> 0 < c < 2 ^ 53 ->
  let n := Float.tenths (Float.div c (10 * D)) in
  (c mod D < H -> n = c / D)
  /\ (H < c mod D -> n = c / D + 1)
  /\ (c mod D = H -> n = c / D \/ n = c / D + 1).
Proof.
  intros HH HD Hc.
  assert (Dpos : 0 < D) by lia.
  destruct (div_spec c (10 * D) ltac:(lia) Hc) as (k & Lk & E & R).
  assert (K : 5 * D < 2 ^ k).
  { pose proof (Z.log2_spec (10 * D) ltac:(lia)) as [_ U].
    rewrite Z.pow_succ_r in U by apply Z.log2_nonneg.
    assert (2 ^ Z.log2 (10 * D) <= 2 ^ k)
      by (apply Z.pow_le_mono_r; lia).
    lia. }
  pose proof (Z.log2_nonneg (10 * D)) as L0.
  unfold Float.tenths. cbv zeta. rewrite E.
  replace (Z.max 0 (- k)) with 0 by lia.
  replace (Z.max 0 (- - k)) with k by lia.
  rewrite Z.pow_0_r, Z.mul_1_r.
  set (m := Float.mant (Float.div c (10 * D))) in *.
  set (P := 2 ^ k) in *.
  pose proof (Z.div_mod c D ltac:(lia)) as Ec.
  pose proof (Z.mod_pos_bound c D Dpos) as Eb.
  set (a := c / D) in *. set (b := c mod D) in *.
  assert (Bd : 2 * c * P - 10 * D <= 20 * D * m <= 2 * c * P + 10 * D) by lia.
  assert (Floor : forall t, 2 * P * t <= 20 * m + P < 2 * P * (t + 1) ->
                       (20 * m + P) / (2 * P) = t).
  { intros t Ht. symmetry.
    apply (Z.div_unique_pos _ _ t (20 * m + P - 2 * P * t)); lia. }
  repeat split.
  - intros Hb. apply Floor. nia.
  - intros Hb. apply Floor. nia.
  - intros Hb.
    assert (C : 2 * P * a <= 20 * m + P < 2 * P * (a + 2)) by nia.
    destruct (Z_lt_le_dec (20 * m + P) (2 * P * (a + 1))).
    + left. apply Floor. lia.
    + right. apply Floor. lia.
Qed.

Lemma decimal_digit (n : Z) :
  String.length (Js.decimal (n mod 10)) = 1%nat.
Proof.
  pose proof (Z.mod_pos_bound n 10 ltac:(lia)) as B.
  assert (C : n mod 10 = 0 \/ n mod 10 = 1 \/ n mod 10 = 2 \/ n mod 10 = 3
              \/ n mod 10 = 4 \/ n mod 10 = 5 \/ n mod 10 = 6
              \/ n mod 10 = 7 \/ n mod 10 = 8 \/ n mod 10 = 9) by lia.
  repeat (destruct C as [-> | C]; [reflexivity|]). now rewrite C.
Qed.

(** The tenths shown for a count divided by [10 * D]: the count over [D]
    rounded to nearest, either way when the binary64 quotient sits next to
    a tie. *)
Lemma tenths_close (c D H : Z) :
  0 < H -> D = 2 * H -> 0 < c < 2 ^ 53 ->
  Z.abs (D * Float.tenths (Float.div c (10 * D)) - c) <= H
  /\ (c mod D <> H ->
      Float.tenths (Float.div c (10 * D)) = (c + H) / D).
Proof.
  intros HH HD Hc.
  destruct (tenths_div c D H HH HD Hc) as (Lo & Hi & Tie).
  pose proof (Z.div_mod c D ltac:(lia)) as Ec.
  pose proof (Z.mod_pos_bound c D ltac:(lia)) as Eb.
  destruct (Z.lt_trichotomy (c mod D) H) as [A | [A | A]].
  - rewrite (Lo A). split; [lia|]. intros _.
    apply (Z.div_unique_pos _ _ _ (c mod D + H)); lia.
  - split; [destruct (Tie A) as [-> | ->]; lia | contradiction].
  - rewrite (Hi A). split; [lia|]. intros _.
    apply (Z.div_unique_pos _ _ _ (c mod D - H)); lia.
Qed.

(** C8. For a count that is a non-negative integer the formatter returns
    the plain decimal string below 1,000; from 1,000 on the count over
    1,000 with one decimal place and the suffix K; from 1,000,000 on the
    count over 1,000,000 with one decimal place and the suffix M. The
    decimal shown is the nearest tenth. 999 gives "999", 1500 gives "1.5K",
    2,500,000 gives "2.5M". *)
Theorem formatViewCount_abbreviates :
  (forall count : Z,
     0 <= count < 2 ^ 53 ->
     (count < 1000 -> formatViewCount count = Js.decimal count)
     /\ (1000 <= count < 1000000 ->
         exists n,
           formatViewCount count
           = ((Js.decimal (n / 10) ++ "." ++ Js.decimal (n mod 10)) ++ "K")%string
           /\ String.length (Js.decimal (n mod 10)) = 1%nat
           /\ Z.abs (100 * n - count) <= 50
           /\ (count mod 100 <> 50 -> n = (count + 50) / 100))
     /\ (1000000 <= count ->
         exists n,
           formatViewCount count
           = ((Js.decimal (n / 10) ++ "." ++ Js.decimal (n mod 10)) ++ "M")%string
           /\ String.length (Js.decimal (n mod 10)) = 1%nat
           /\ Z.abs (100000 * n - count) <= 50000
           /\ (count mod 100000 <> 50000 -> n = (count + 50000) / 100000)))
  /\ formatViewCount 999 = "999"
  /\ formatViewCount 1500 = "1.5K"
  /\ formatViewCount 2500000 = "2.5M".
Proof.
  split; [|repeat split; vm_compute; reflexivity].
  intros count B. unfold formatViewCount. repeat split.
  - intros L.
    destruct (1000000 <=? count) eqn:M; [apply Z.leb_le in M; lia|].
    destruct (1000 <=? count) eqn:K; [apply Z.leb_le in K; lia|].
    reflexivity.
  - intros [L U].
    destruct (1000000 <=? count) eqn:M; [apply Z.leb_le in M; lia|].
    destruct (1000 <=? count) eqn:K; [|apply Z.leb_gt in K; lia].
    exists (Float.tenths (Float.div count 1000)).
    split; [reflexivity|]. split; [apply decimal_digit|].
    apply (tenths_close count 100 50); lia.
  - intros L.
    destruct (1000000 <=? count) eqn:M; [|apply Z.leb_gt in M; lia].
    exists (Float.tenths (Float.div count 1000000)).
    split; [reflexivity|]. split; [apply decimal_digit|].
    apply (tenths_close count 100000 50000); lia.
Qed.

Lemma formatViewCount_abbreviates_witness :
  0 <= 1150 < 2 ^ 53
  /\ exists n,
       formatViewCount 1150
       = ((Js.decimal (n / 10) ++ "." ++ Js.decimal (n mod 10)) ++ "K")%string
       /\ String.length (Js.decimal (n mod 10)) = 1%nat
       /\ Z.abs (100 * n - 1150) <= 50
       /\ (1150 mod 100 <> 50 -> n = (1150 + 50) / 100).
Proof.
  assert (B : 0 <= 1150 < 2 ^ 53) by (split; [lia | reflexivity]).
  split; [exact B|].
  apply (proj1 (proj2 (proj1 formatViewCount_abbreviates 1150 B))).
  lia.
Defined.

(** * Further properties of the code *)

(** ** AuthGuard: what the dependency arrays leave unchecked *)

Section AuthGuardDependencies.

Variable Identity : Type.
Variable supportedChainIds : list Z.

Lemma same_chain_refl (c : option AuthGuard.Chain) :
  AuthGuard.same_chain c c = true.
Proof.
  destruct c as [x|]; simpl; [|reflexivity].
  apply Nat.eqb_refl.
Qed.

Lemma same_addr_refl (a : option string * nat * option string) :
  AuthGuard.same_addr a a = true.
Proof.
  destruct a as [[x c] i]. unfold AuthGuard.same_addr.
  assert (R : forall o, Js.strict_neq o o = false)
    by (intros o; now apply strict_neq_false).
  now rewrite !R, Nat.eqb_refl.
Qed.

(** X1. The effects look at nothing but their dependency arrays: when the
    connection flag, the chain object and the clear callback are those of
    the previous render, and the addresses either are unchanged too or do
    not call for a clear, nothing is cleared, even if the network is
    unsupported or the wallet is not connected, and whatever happened to the
    identity. *)
Theorem AuthGuard_no_recheck (p s : AuthGuard.Signals Identity) :
  AuthGuard.isConnected s = AuthGuard.isConnected p ->
  AuthGuard.chain s = AuthGuard.chain p ->
  AuthGuard.clear s = AuthGuard.clear p ->
  AuthGuard.switched s = false
  \/ (AuthGuard.address s = AuthGuard.address p
      /\ AuthGuard.identityAddress s = AuthGuard.identityAddress p) ->
  AuthGuard.effects supportedChainIds (Some p) s = [].
Proof.
  intros C N K S. unfold AuthGuard.effects, React.useEffect, option_map.
  rewrite C, N, K.
  unfold AuthGuard.same_bool_nat, AuthGuard.same_chain_nat. cbn [fst snd].
  rewrite Bool.eqb_reflx, Nat.eqb_refl, same_chain_refl.
  destruct S as [S | [A I]].
  - rewrite S. destruct (AuthGuard.same_addr _ _); reflexivity.
  - rewrite A, I, same_addr_refl. reflexivity.
Qed.

End AuthGuardDependencies.

Lemma AuthGuard_no_recheck_witness :
  (AuthGuard.isConnected Scenario.signed_in_on_chain_5
   = AuthGuard.isConnected Scenario.on_chain_5
   /\ AuthGuard.chain Scenario.signed_in_on_chain_5
      = AuthGuard.chain Scenario.on_chain_5
   /\ AuthGuard.clear Scenario.signed_in_on_chain_5
      = AuthGuard.clear Scenario.on_chain_5
   /\ AuthGuard.switched Scenario.signed_in_on_chain_5 = false)
  /\ AuthGuard.unsupported [1] Scenario.signed_in_on_chain_5 = true
  /\ AuthGuard.render Scenario.signed_in_on_chain_5 = AuthGuard.Children
  /\ AuthGuard.effects [1] (Some Scenario.on_chain_5)
       Scenario.signed_in_on_chain_5 = [].
Proof.
  split; [repeat split|]. split; [reflexivity|]. split; [reflexivity|].
  exact (AuthGuard_no_recheck unit [1] Scenario.on_chain_5
           Scenario.signed_in_on_chain_5 eq_refl eq_refl eq_refl
           (or_introl eq_refl)).
Defined.

(** ** VideoGrid: the loader beyond one fetch *)

Import GridView.

(** The fetch depends on the tag only through the branch it selects and,
    on the tag branch, through the lower-cased tag. *)
Lemma fetchBody_filtered (actor : Actor) (t : string) :
  filtered (Some t) = true ->
  fetchBody actor (Some t) =
  ([ListVideosByTag (Js.toLowerCase t)],
   Returned match list_videos_by_tag actor (Js.toLowerCase t) with
            | Resolves (Some l) => sort l
            | Resolves None => []
            | Rejects _ => []
            end).
Proof.
  intros F. rewrite fetchBody_spec, query_filtered by exact F. cbn [fst snd].
  destruct (list_videos_by_tag actor (Js.toLowerCase t)) as [e | [l|]];
    reflexivity.
Qed.

Lemma fetchBody_unfiltered (actor : Actor) (tag : option string) :
  filtered tag = false ->
  fetchBody actor tag =
  match search_videos actor with
  | Some search =>
      ([SearchVideos "" [] []],
       match search "" [] [] with
       | Resolves (Some l) => Returned (sort l)
       | Resolves None => Threw nullish_length
       | Rejects _ => Returned []
       end)
  | None => ([], Returned [])
  end.
Proof.
  intros F. rewrite fetchBody_spec, query_unfiltered by exact F.
  destruct (search_videos actor) as [search|]; [|reflexivity].
  cbn [fst snd]. destruct (search "" [] []) as [e | [l|]]; reflexivity.
Qed.

(** Whatever the client, the tag and the outcome, a settled [fetchVideos]
    has turned the loading flag off. *)
Lemma fetchVideos_ends_loading (actor : option Actor) (tag : option string)
    (st : GridState) :
  loading (snd (fetchVideos actor tag st)) = false.
Proof.
  destruct actor as [a|]; [|reflexivity].
  rewrite fetchVideos_spec. reflexivity.
Qed.

Lemma sort_nil_iff (l : list Video) : sort l = [] <-> l = [].
Proof.
  split; [|intros ->; reflexivity].
  intros H. apply Permutation_nil. rewrite <- H.
  apply Permutation_sym, sort_perm.
Qed.

(** What a fetch stores, by how the dispatched query settled. *)
Lemma fetchBody_resolved (actor : Actor) (tag : option string)
    (vs : list Video) :
  resolved actor tag vs -> snd (fetchBody actor tag) = Returned (sort vs).
Proof.
  intros [(F & t & -> & R) | (F & search & S & R)].
  - rewrite fetchBody_filtered by exact F. cbn [snd]. now rewrite R.
  - rewrite fetchBody_unfiltered by exact F. rewrite S. cbn [snd].
    now rewrite R.
Qed.

Lemma fetchBody_nonempty (actor : Actor) (tag : option string)
    (x : Video) (l : list Video) :
  snd (fetchBody actor tag) = Returned (x :: l) ->
  exists vs, vs <> [] /\ resolved actor tag vs.
Proof.
  destruct (filtered tag) eqn:F.
  - pose proof F as F'. apply filtered_spec in F' as (t & -> & _).
    rewrite fetchBody_filtered by exact F. cbn [snd].
    destruct (list_videos_by_tag actor (Js.toLowerCase t)) as [e | [vs|]] eqn:R;
      try discriminate.
    intros H. exists vs. split.
    + intros ->. discriminate H.
    + left. split; [exact F|]. now exists t.
  - rewrite fetchBody_unfiltered by exact F.
    destruct (search_videos actor) as [search|] eqn:S; [|discriminate].
    cbn [snd].
    destruct (search "" [] []) as [e | [vs|]] eqn:R; try discriminate.
    intros H. exists vs. split.
    + intros ->. discriminate H.
    + right. split; [exact F|]. now exists search.
Qed.

(** X2. Whenever a fetch settles, on whatever state, the grid does not
    show the skeleton, and it shows the cards exactly when no error stood in
    the state it settled on and the query it dispatched resolved to a
    non-empty array. For a fetch that the effect starts and that settles
    before any other, the error has been reset, so the cards are shown
    exactly when its query resolved to a non-empty array. *)
Theorem grid_after_fetch (actor : Actor) (tag : option string) :
  (forall st : GridState,
     renderBranch (snd (fetchVideos (Some actor) tag st)) <> Skeleton
     /\ (renderBranch (snd (fetchVideos (Some actor) tag st)) = Cards
         <-> Js.truthy (error st) = false
             /\ exists vs, vs <> [] /\ resolved actor tag vs))
  /\ (forall g : Grid,
        nested_actor actor = true ->
        is_new (prevFetchIdRef g) (fetchId actor tag) = true ->
        (renderBranch (state (snd (loadVideos (Some actor) tag g))) = Cards
         <-> exists vs, vs <> [] /\ resolved actor tag vs)).
Proof.
  assert (G : forall st,
             renderBranch (snd (fetchVideos (Some actor) tag st)) = Cards
             <-> Js.truthy (error st) = false
                 /\ exists vs, vs <> [] /\ resolved actor tag vs).
  { intros st. rewrite fetchVideos_spec. cbn [snd]. split.
    - destruct (snd (fetchBody actor tag)) as [[|x l] | err] eqn:B;
        unfold renderBranch; cbn [error videos loading setLoading setVideos
                                    setError];
        destruct (Js.truthy (error st)); try discriminate.
      intros _. split; [reflexivity|].
      exact (fetchBody_nonempty actor tag x l B).
    - intros (E & vs & NE & R). rewrite (fetchBody_resolved actor tag vs R).
      unfold renderBranch.
      cbn [error videos loading setLoading setVideos setError].
      rewrite E. destruct (sort vs) eqn:S; [|reflexivity].
      exfalso. apply NE. now apply sort_nil_iff. }
  split.
  - intros st. split; [|apply G].
    unfold renderBranch. rewrite fetchVideos_ends_loading.
    destruct (Js.truthy _); [discriminate|].
    destruct (videos _); discriminate.
  - intros g N I. rewrite loadVideos_new by assumption. cbn [snd state].
    rewrite G. cbn [error setError]. cbn [Js.truthy]. tauto.
Qed.

Lemma grid_after_fetch_witness :
  (nested_actor Sample.backend = true
   /\ is_new (prevFetchIdRef mounted) (fetchId Sample.backend None) = true)
  /\ (renderBranch
        (state (snd (loadVideos (Some Sample.backend) None mounted)))
      = Cards
      <-> exists vs, vs <> [] /\ resolved Sample.backend None vs).
Proof.
  split; [split; reflexivity|].
  exact (proj2 (grid_after_fetch Sample.backend None) mounted
           eq_refl eq_refl).
Defined.

(** X3. A commit is idempotent: run again with the same client and tag on
    the grid it left, the loading effect makes no backend call and changes
    nothing, whether or not React reruns it; with a ready client the ref
    always holds the fetch id of the tag last seen. *)
Theorem loadVideos_idempotent (actor : option Actor) (tag : option string)
    (g : Grid) (prev : option (option Actor * option string)) :
  loadVideos actor tag (snd (loadVideos actor tag g))
  = ([], snd (loadVideos actor tag g))
  /\ commit prev actor tag (snd (loadVideos actor tag g))
     = ([], snd (loadVideos actor tag g))
  /\ (forall a, actor = Some a -> nested_actor a = true ->
      prevFetchIdRef (snd (loadVideos actor tag g)) = Some (fetchId a tag)).
Proof.
  assert (L : loadVideos actor tag (snd (loadVideos actor tag g))
              = ([], snd (loadVideos actor tag g))).
  { destruct actor as [a|]; [|reflexivity].
    destruct (nested_actor a) eqn:N.
    - destruct (is_new (prevFetchIdRef g) (fetchId a tag)) eqn:I.
      + rewrite (loadVideos_new a tag g N I). cbn [snd].
        apply loadVideos_same. apply is_new_refl.
      + rewrite (loadVideos_same a tag g I). cbn [snd].
        now apply loadVideos_same.
    - unfold loadVideos. rewrite N. reflexivity. }
  split; [exact L|]. split; [now apply commit_idle|].
  intros a -> N.
  destruct (is_new (prevFetchIdRef g) (fetchId a tag)) eqn:I.
  - now rewrite (loadVideos_new a tag g N I).
  - rewrite (loadVideos_same a tag g I). now apply is_new_false.
Qed.

Lemma loadVideos_idempotent_witness :
  nested_actor Sample.backend = true
  /\ fst (loadVideos (Some Sample.backend) (Some "Comedy") mounted)
     = [ListVideosByTag "comedy"]
  /\ loadVideos (Some Sample.backend) (Some "Comedy")
       (snd (loadVideos (Some Sample.backend) (Some "Comedy") mounted))
     = ([], snd (loadVideos (Some Sample.backend) (Some "Comedy") mounted)).
Proof.
  split; [reflexivity|]. split; [reflexivity|].
  exact (proj1 (loadVideos_idempotent (Some Sample.backend) (Some "Comedy")
                  mounted None)).
Defined.

Lemma append_inj_l (p x y : string) :
  (p ++ x)%string = (p ++ y)%string -> x = y.
Proof.
  induction p as [|c p IH]; simpl; [auto|].
  intros H. inversion H. auto.
Qed.

Lemma or_else_truthy (t d : string) : t <> "" -> Js.or_else (Some t) d = t.
Proof. intros N. simpl. apply String.eqb_neq in N. now rewrite N. Qed.

(** X4. The backend is asked by lower-cased tag but the fetch id is not
    lower-cased: two tags of ASCII characters that differ only in letter
    case give the same calls and the same resulting state, and yet
    different fetch ids, so moving between them fetches the same list
    again. The tags of the unfiltered branch likewise give one and the same
    fetch. *)
Theorem fetch_depends_on_normalised_tag (actor : Actor) (st : GridState) :
  (forall t1 t2,
     Js.is_ascii t1 = true -> Js.is_ascii t2 = true ->
     filtered (Some t1) = true -> filtered (Some t2) = true ->
     Js.toLowerCase t1 = Js.toLowerCase t2 ->
     fetchVideos (Some actor) (Some t1) st
     = fetchVideos (Some actor) (Some t2) st
     /\ (t1 <> t2 ->
         fetchId actor (Some t1) <> fetchId actor (Some t2)))
  /\ (forall tag1 tag2,
        filtered tag1 = false -> filtered tag2 = false ->
        fetchVideos (Some actor) tag1 st = fetchVideos (Some actor) tag2 st).
Proof.
  split.
  - intros t1 t2 _ _ F1 F2 E. split.
    + rewrite !fetchVideos_spec, !fetchBody_filtered by assumption.
      now rewrite E.
    + intros N H. apply N.
      apply filtered_spec in F1 as (u1 & E1 & N1 & _).
      apply filtered_spec in F2 as (u2 & E2 & N2 & _).
      inversion E1; inversion E2; subst u1 u2.
      unfold fetchId in H. apply append_inj_l in H.
      apply (append_inj_l "-") in H.
      now rewrite !or_else_truthy in H.
  - intros tag1 tag2 F1 F2.
    rewrite !fetchVideos_spec, !fetchBody_unfiltered by assumption.
    reflexivity.
Qed.

Lemma fetch_depends_on_normalised_tag_witness :
  (Js.is_ascii "ALL" = true /\ Js.is_ascii "aLL" = true
   /\ filtered (Some "ALL") = true /\ filtered (Some "aLL") = true
   /\ Js.toLowerCase "ALL" = Js.toLowerCase "aLL")
  /\ fst (fetchVideos (Some Sample.backend) (Some "ALL") (state mounted))
     = [ListVideosByTag "all"]
  /\ fetchVideos (Some Sample.backend) (Some "ALL") (state mounted)
     = fetchVideos (Some Sample.backend) (Some "aLL") (state mounted).
Proof.
  split; [repeat split|]. split; [reflexivity|].
  exact (proj1 (proj1 (fetch_depends_on_normalised_tag Sample.backend
                         (state mounted))
                  "ALL" "aLL" eq_refl eq_refl eq_refl eq_refl eq_refl)).
Defined.

(** X5. Fetches in flight are not ordered by request: the collection is the
    one of the fetch that settles last. A fetch that succeeds leaves the
    error as it finds it, so when the other fetch has failed before it, the
    grid ends with that error and the late fetch's videos together, and
    shows the error panel. *)
Theorem overlapping_fetches (actor1 : Actor) (tag1 : option string)
    (actor2 : Actor) (tag2 : option string) (st : GridState) :
  videos (settle_both actor1 tag1 actor2 tag2 st)
  = videos (snd (fetchVideos (Some actor1) tag1 st))
  /\ (forall l,
        snd (fetchBody actor1 tag1) = Returned l ->
        error (settle_both actor1 tag1 actor2 tag2 st)
        = error (snd (fetchVideos (Some actor2) tag2 st)))
  /\ (forall l err,
        snd (fetchBody actor1 tag1) = Returned l ->
        snd (fetchBody actor2 tag2) = Threw err ->
        videos (settle_both actor1 tag1 actor2 tag2 st) = l
        /\ error (settle_both actor1 tag1 actor2 tag2 st)
           = Some ("Failed to load videos: " ++ describe err)%string
        /\ renderBranch (settle_both actor1 tag1 actor2 tag2 st)
           = ErrorPanel).
Proof.
  unfold settle_both. rewrite !(fetchVideos_spec actor1). cbn [snd].
  split; [|split].
  - destruct (snd (fetchBody actor1 tag1)); reflexivity.
  - intros l ->. reflexivity.
  - intros l err -> T. rewrite fetchVideos_spec, T. cbn [snd].
    repeat split.
Qed.

Lemma overlapping_fetches_witness :
  (snd (fetchBody Sample.backend None)
   = Returned (sort Sample.catalogue)
   /\ snd (fetchBody Sample.voiding (Some "all")) = Threw nullish_length)
  /\ videos (settle_both Sample.backend None Sample.voiding (Some "all")
               (state mounted))
     = sort Sample.catalogue
  /\ error (settle_both Sample.backend None Sample.voiding (Some "all")
              (state mounted))
     = Some ("Failed to load videos: " ++ describe nullish_length)%string
  /\ renderBranch (settle_both Sample.backend None Sample.voiding
                     (Some "all") (state mounted))
     = ErrorPanel.
Proof.
  split; [split; reflexivity|].
  exact (proj2 (proj2 (overlapping_fetches Sample.backend None
                         Sample.voiding (Some "all") (state mounted)))
           (sort Sample.catalogue) nullish_length eq_refl eq_refl).
Defined.

Lemma lower_ascii_idem (c : ascii) :
  Js.lower_ascii (Js.lower_ascii c) = Js.lower_ascii c.
Proof. destruct c as [[] [] [] [] [] [] [] []]; reflexivity. Qed.

Lemma toLowerCase_idem (s : string) :
  Js.toLowerCase (Js.toLowerCase s) = Js.toLowerCase s.
Proof.
  induction s as [|c r IH]; simpl; [reflexivity|].
  now rewrite lower_ascii_idem, IH.
Qed.

Lemma toLowerCase_nonempty (s : string) : s <> "" -> Js.toLowerCase s <> "".
Proof. destruct s; simpl; [congruence | discriminate]. Qed.

(** X6. What reaches the backend: at most one call per fetch, and every
    call is either the search with an empty query and empty filters or the
    tag query with a non-empty tag that holds no upper-case ASCII letter. *)
Theorem backend_calls_wellformed (actor : option Actor) (tag : option string)
    (st : GridState) :
  (List.length (fst (fetchVideos actor tag st)) <= 1)%nat
  /\ forall c, In c (fst (fetchVideos actor tag st)) ->
       c = SearchVideos "" [] []
       \/ exists t, c = ListVideosByTag t /\ t <> ""
                    /\ Js.toLowerCase t = t.
Proof.
  destruct actor as [a|]; [|split; [simpl; lia | intros c []]].
  rewrite fetchVideos_spec. cbn [fst]. rewrite fetchBody_calls.
  destruct (filtered tag) eqn:F.
  - apply filtered_spec in F as (t & -> & N & _). split; [simpl; lia|].
    intros c [<- | []]. right. exists (Js.toLowerCase t).
    split; [reflexivity|]. split.
    + now apply toLowerCase_nonempty.
    + apply toLowerCase_idem.
  - destruct (search_videos a).
    + split; [simpl; lia|]. intros c [<- | []]. now left.
    + split; [simpl; lia|]. intros c [].
Qed.

(** ** VideoGrid: more on the sort *)

Lemma fetchVideos_resolved (actor : Actor) (tag : option string)
    (st : GridState) (vs : list Video) :
  resolved actor tag vs ->
  videos (snd (fetchVideos (Some actor) tag st)) = sort vs.
Proof.
  intros R. rewrite fetchVideos_spec. cbn [snd].
  now rewrite (fetchBody_resolved actor tag vs R).
Qed.

(** Inserting a video moves no video of its own key in front of it. *)
Lemma insert_filter (k : Z) (x : Video) (l : list Video) :
  filter (fun v => key v =? k) (insert x l)
  = if key x =? k then x :: filter (fun v => key v =? k) l
    else filter (fun v => key v =? k) l.
Proof.
  induction l as [|y r IH]; [reflexivity|].
  cbn [insert]. destruct (compareFn x y <=? 0) eqn:C; [reflexivity|].
  apply Z.leb_gt in C. unfold compareFn in C. fold (key y) (key x) in C.
  cbn [filter]. rewrite IH.
  destruct (key x =? k) eqn:X; [|reflexivity].
  apply Z.eqb_eq in X.
  assert (Y : (key y =? k) = false) by (apply Z.eqb_neq; lia).
  now rewrite Y.
Qed.

Lemma sort_filter (k : Z) (l : list Video) :
  filter (fun v => key v =? k) (sort l) = filter (fun v => key v =? k) l.
Proof.
  induction l as [|x r IH]; [reflexivity|].
  cbn [sort fold_right]. fold (sort r). rewrite insert_filter, IH.
  reflexivity.
Qed.

(** X7. The sort is stable on what it compares: the videos whose timestamps
    are the same number stand in the stored collection in the order the
    backend returned them. *)
Theorem fetchVideos_keeps_backend_order_of_ties (actor : Actor)
    (tag : option string) (st : GridState) (vs : list Video) (k : Z) :
  resolved actor tag vs ->
  filter (fun v => key v =? k) (videos (snd (fetchVideos (Some actor) tag st)))
  = filter (fun v => key v =? k) vs.
Proof.
  intros R. rewrite (fetchVideos_resolved actor tag st vs R).
  apply sort_filter.
Qed.

Lemma nanos_resolved :
  resolved Scenario.nanos None
    [Scenario.first_upload; Scenario.second_upload].
Proof. right. split; [reflexivity|]. eexists. split; reflexivity. Defined.

Lemma fetchVideos_keeps_backend_order_of_ties_witness :
  resolved Scenario.nanos None
    [Scenario.first_upload; Scenario.second_upload]
  /\ filter (fun v => key v =? 1700000000000000000)
       (videos (snd (fetchVideos (Some Scenario.nanos) None (state mounted))))
     = [Scenario.first_upload; Scenario.second_upload].
Proof.
  split; [exact nanos_resolved|].
  exact (fetchVideos_keeps_backend_order_of_ties Scenario.nanos None
           (state mounted) [Scenario.first_upload; Scenario.second_upload]
           1700000000000000000 nanos_resolved).
Defined.

Lemma insert_head (x : Video) (l : list Video) :
  Forall (not_older x) l -> insert x l = x :: l.
Proof.
  destruct l as [|y r]; [reflexivity|].
  intros H. inversion H as [|? ? Hy _]; subst. cbn [insert].
  apply compareFn_nonpos, Z.leb_le in Hy. now rewrite Hy.
Qed.

Lemma sort_sorted_id (l : list Video) :
  StronglySorted not_older l -> sort l = l.
Proof.
  induction 1 as [|x r Hs IH Hx]; [reflexivity|].
  cbn [sort fold_right]. fold (sort r). rewrite IH. now apply insert_head.
Qed.

(** X8. A list that the backend already returns newest first is stored
    as it is; in particular sorting a second time changes nothing. *)
Theorem fetchVideos_keeps_sorted_input (actor : Actor) (tag : option string)
    (st : GridState) (vs : list Video) :
  resolved actor tag vs ->
  (StronglySorted not_older vs ->
   videos (snd (fetchVideos (Some actor) tag st)) = vs)
  /\ sort (videos (snd (fetchVideos (Some actor) tag st)))
     = videos (snd (fetchVideos (Some actor) tag st)).
Proof.
  intros R. rewrite (fetchVideos_resolved actor tag st vs R). split.
  - apply sort_sorted_id.
  - apply sort_sorted_id, sort_sorted.
Qed.

Lemma ordered_resolved :
  resolved Scenario.ordered None
    [Sample.video "b" 20; Sample.video "a" 5; Sample.video "c" 1].
Proof. right. split; [reflexivity|]. eexists. split; reflexivity. Defined.

Lemma fetchVideos_keeps_sorted_input_witness :
  resolved Scenario.ordered None
    [Sample.video "b" 20; Sample.video "a" 5; Sample.video "c" 1]
  /\ sort (videos (snd (fetchVideos (Some Scenario.ordered) None
                         (state mounted))))
     = videos (snd (fetchVideos (Some Scenario.ordered) None (state mounted))).
Proof.
  split; [exact ordered_resolved|].
  exact (proj2 (fetchVideos_keeps_sorted_input Scenario.ordered None
                  (state mounted)
                  [Sample.video "b" 20; Sample.video "a" 5;
                   Sample.video "c" 1]
                  ordered_resolved)).
Defined.

(** *** [Number(...)] keeps the order of the integers *)

Lemma nearest_even_bounds (q r den : Z) :
  q <= Float.nearest_even q r den <= q + 1.
Proof.
  unfold Float.nearest_even.
  destruct (2 * r <? den); [lia|].
  destruct (den <? 2 * r); [lia|].
  destruct (Z.even q); lia.
Qed.

Lemma nearest_even_mono (q r r' den : Z) :
  r <= r' -> Float.nearest_even q r den <= Float.nearest_even q r' den.
Proof.
  intros H. unfold Float.nearest_even.
  destruct (2 * r <? den) eqn:A; destruct (2 * r' <? den) eqn:A';
    destruct (den <? 2 * r) eqn:B; destruct (den <? 2 * r') eqn:B';
    rewrite ?Z.ltb_lt, ?Z.ltb_ge in *; destruct (Z.even q); lia.
Qed.

Lemma Number_opp (b : Z) : Float.Number (- b) = - Float.Number b.
Proof.
  unfold Float.Number. rewrite Z.abs_opp, Z.sgn_opp.
  destruct (Z.log2 (Z.abs b) - 52 <=? 0); lia.
Qed.

(** [Number] on a non-negative integer of more than 53 bits. *)
Lemma Number_big (a : Z) :
  0 <= a -> 0 < Z.log2 a - 52 ->
  Float.Number a
  = Float.nearest_even (a / 2 ^ (Z.log2 a - 52)) (a mod 2 ^ (Z.log2 a - 52))
      (2 ^ (Z.log2 a - 52)) * 2 ^ (Z.log2 a - 52).
Proof.
  intros A E. unfold Float.Number. rewrite (Z.abs_eq a A).
  destruct (Z.log2 a - 52 <=? 0) eqn:L; [apply Z.leb_le in L; lia|].
  assert (0 < a).
  { destruct (Z.eq_dec a 0) as [->|]; [simpl in E; lia | lia]. }
  rewrite Z.sgn_pos by assumption. lia.
Qed.

Lemma Number_small (a : Z) : Z.log2 (Z.abs a) - 52 <= 0 -> Float.Number a = a.
Proof.
  intros E. unfold Float.Number. apply Z.leb_le in E. now rewrite E.
Qed.

Lemma Number_big_bounds (a : Z) :
  0 <= a -> 0 < Z.log2 a - 52 ->
  2 ^ Z.log2 a <= Float.Number a <= 2 ^ (Z.log2 a + 1).
Proof.
  intros A E. rewrite (Number_big a A E).
  set (e := Z.log2 a - 52) in *.
  assert (P : 0 < 2 ^ e) by (apply Z.pow_pos_nonneg; lia).
  assert (Apos : 0 < a).
  { destruct (Z.eq_dec a 0) as [->|]; [subst e; simpl in E; lia | lia]. }
  destruct (Z.log2_spec a Apos) as [Lo Hi].
  replace (Z.log2 a) with (52 + e) in Lo at 1 by (subst e; lia).
  replace (Z.succ (Z.log2 a)) with (53 + e) in Hi by (subst e; lia).
  rewrite Z.pow_add_r in Lo, Hi by lia.
  replace (Z.log2 a) with (52 + e) at 1 by (subst e; lia).
  replace (Z.log2 a + 1) with (53 + e) by (subst e; lia).
  rewrite !Z.pow_add_r by lia.
  pose proof (nearest_even_bounds (a / 2 ^ e) (a mod 2 ^ e) (2 ^ e)) as B.
  assert (Q1 : 2 ^ 52 <= a / 2 ^ e)
    by (apply Z.div_le_lower_bound; lia).
  assert (Q2 : a / 2 ^ e < 2 ^ 53)
    by (apply Z.div_lt_upper_bound; lia).
  split; nia.
Qed.

Lemma Number_nonneg (a : Z) : 0 <= a -> 0 <= Float.Number a.
Proof.
  intros A. destruct (Z_le_gt_dec (Z.log2 a - 52) 0) as [E | E].
  - rewrite Number_small by (rewrite Z.abs_eq; lia). exact A.
  - pose proof (Number_big_bounds a A ltac:(lia)) as [Lo _].
    pose proof (Z.pow_nonneg 2 (Z.log2 a) ltac:(lia)). lia.
Qed.

Lemma Number_mono_nonneg (a b : Z) :
  0 <= a <= b -> Float.Number a <= Float.Number b.
Proof.
  intros [A AB].
  assert (B : 0 <= b) by lia.
  pose proof (Z.log2_le_mono a b AB) as LL.
  destruct (Z_le_gt_dec (Z.log2 b - 52) 0) as [Eb | Eb].
  - rewrite !Number_small by (rewrite Z.abs_eq; lia). exact AB.
  - pose proof (Number_big_bounds b B ltac:(lia)) as [Lob _].
    destruct (Z_le_gt_dec (Z.log2 a - 52) 0) as [Ea | Ea].
    + rewrite (Number_small a) by (rewrite Z.abs_eq; lia).
      destruct (Z.eq_dec a 0) as [->|Na].
      * pose proof (Z.pow_nonneg 2 (Z.log2 b) ltac:(lia)). lia.
      * destruct (Z.log2_spec a ltac:(lia)) as [_ Hi].
        assert (2 ^ Z.succ (Z.log2 a) <= 2 ^ Z.log2 b)
          by (apply Z.pow_le_mono_r; lia).
        lia.
    + destruct (Z.eq_dec (Z.log2 a) (Z.log2 b)) as [Eq | Ne].
      * rewrite (Number_big a A ltac:(lia)), (Number_big b B ltac:(lia)).
        rewrite Eq. set (e := Z.log2 b - 52) in *.
        assert (P : 0 < 2 ^ e) by (apply Z.pow_pos_nonneg; lia).
        pose proof (Z.div_mod a (2 ^ e) ltac:(lia)) as Da.
        pose proof (Z.div_mod b (2 ^ e) ltac:(lia)) as Db.
        pose proof (Z.mod_pos_bound a (2 ^ e) P) as Ra.
        pose proof (Z.mod_pos_bound b (2 ^ e) P) as Rb.
        pose proof (Z.div_le_mono a b (2 ^ e) P AB) as Q.
        apply Z.mul_le_mono_nonneg_r; [lia|].
        destruct (Z.eq_dec (a / 2 ^ e) (b / 2 ^ e)) as [Qe | Qn].
        -- rewrite Qe. apply nearest_even_mono. nia.
        -- pose proof (nearest_even_bounds (a / 2 ^ e) (a mod 2 ^ e) (2 ^ e)).
           pose proof (nearest_even_bounds (b / 2 ^ e) (b mod 2 ^ e) (2 ^ e)).
           lia.
      * pose proof (Number_big_bounds a A ltac:(lia)) as [_ Hia].
        assert (2 ^ (Z.log2 a + 1) <= 2 ^ Z.log2 b)
          by (apply Z.pow_le_mono_r; lia).
        lia.
Qed.

Lemma Number_mono (a b : Z) : a <= b -> Float.Number a <= Float.Number b.
Proof.
  intros AB. destruct (Z_le_gt_dec 0 a) as [A | A].
  - apply Number_mono_nonneg. lia.
  - destruct (Z_le_gt_dec 0 b) as [B | B].
    + pose proof (Number_nonneg b B).
      pose proof (Number_nonneg (- a) ltac:(lia)) as N.
      rewrite Number_opp in N. lia.
    + pose proof (Number_mono_nonneg (- b) (- a) ltac:(lia)) as N.
      rewrite !Number_opp in N. lia.
Qed.

(** X9. The order of the stored collection never contradicts the
    timestamps beyond what the conversion to a number loses: a video stands
    before a video with a larger timestamp only when both timestamps are
    the same number. *)
Theorem fetchVideos_order_up_to_precision (actor : Actor)
    (tag : option string) (st : GridState) (vs : list Video) :
  resolved actor tag vs ->
  StronglySorted
    (fun a b => timestamp b <= timestamp a \/ key a = key b)
    (videos (snd (fetchVideos (Some actor) tag st))).
Proof.
  intros R. rewrite (fetchVideos_resolved actor tag st vs R).
  pose proof (sort_sorted vs) as S.
  induction S as [|x r Hs IH Hx]; constructor; [exact IH|].
  eapply Forall_impl; [|exact Hx].
  intros y Hy. unfold not_older in Hy.
  destruct (Z_le_gt_dec (timestamp y) (timestamp x)) as [L | G];
    [now left | right].
  pose proof (Number_mono (timestamp x) (timestamp y) ltac:(lia)).
  unfold key. lia.
Qed.

Lemma fetchVideos_order_up_to_precision_witness :
  resolved Scenario.nanos None
    [Scenario.first_upload; Scenario.second_upload]
  /\ videos (snd (fetchVideos (Some Scenario.nanos) None (state mounted)))
     = [Scenario.first_upload; Scenario.second_upload]
  /\ StronglySorted
       (fun a b => timestamp b <= timestamp a \/ key a = key b)
       (videos (snd (fetchVideos (Some Scenario.nanos) None (state mounted)))).
Proof.
  split; [exact nanos_resolved|]. split; [reflexivity|].
  exact (fetchVideos_order_up_to_precision Scenario.nanos None
           (state mounted) [Scenario.first_upload; Scenario.second_upload]
           nanos_resolved).
Defined.

(** ** VideoGrid: more on the display helpers *)

(** [getVideoThumbnail] by cases: the truthiness tests on the storage
    reference are subsumed by the prefix test. *)
Lemma thumbnail_cases (env : option string) (video : Video) :
  getVideoThumbnail env video =
  if String.eqb (video_id video) "" then
    match storageRef (storage_ref video) with
    | Some s =>
        if String.prefix "ipfs:" s then
          ("https://" ++ Js.or_else env defaultGateway ++ "/ipfs/" ++ cid_of s
           ++ "/thumbnail.jpg")%string
        else "/header.png"
    | None => "/header.png"
    end
  else
    ("https://vod-cdn.lp-playback.studio/hls/" ++ video_id video
     ++ "/thumbnails/keyframes_0.jpg")%string.
Proof.
  unfold getVideoThumbnail. cbn [Js.truthy].
  destruct (String.eqb (video_id video) ""); [|reflexivity].
  cbn [negb].
  destruct (storage_ref video) as [|s|[|s rest]]; cbn; try reflexivity.
  - destruct s as [|c s]; reflexivity.
  - destruct s as [|c s]; reflexivity.
Qed.

Lemma prefix_https (s : string) :
  String.prefix "https://" ("https://" ++ s) = true.
Proof. apply String.prefix_correct. simpl. now destruct s. Qed.

(** X10. The thumbnail is never empty: it is the static fallback or an
    https URL; and it is the fallback exactly when the video id is empty
    and the storage reference is neither a string that begins with "ipfs:"
    nor an array whose first element does. *)
Theorem thumbnail_shape (env : option string) (video : Video) :
  (getVideoThumbnail env video = "/header.png"
   \/ String.prefix "https://" (getVideoThumbnail env video) = true)
  /\ getVideoThumbnail env video <> ""
  /\ (getVideoThumbnail env video = "/header.png"
      <-> video_id video = ""
          /\ forall cid,
               storage_ref video <> RefString ("ipfs:" ++ cid)
               /\ forall rest,
                    storage_ref video
                    <> RefArray (("ipfs:" ++ cid)%string :: rest)).
Proof.
  assert (F : (forall cid,
                 storage_ref video <> RefString ("ipfs:" ++ cid)
                 /\ forall rest,
                      storage_ref video
                      <> RefArray (("ipfs:" ++ cid)%string :: rest))
              <-> forall cid,
                    storageRef (storage_ref video)
                    <> Some ("ipfs:" ++ cid)%string).
  { split.
    - intros H cid E. apply storageRef_field in E. destruct (H cid) as [A B].
      destruct E as [E | (rest & E)]; [now apply A | now apply (B rest)].
    - intros H cid. split.
      + intros E. apply (H cid), storageRef_field. now left.
      + intros rest E. apply (H cid), storageRef_field. right.
        now exists rest. }
  rewrite F. clear F. rewrite thumbnail_cases.
  destruct (String.eqb (video_id video) "") eqn:I.
  - apply String.eqb_eq in I.
    destruct (storageRef (storage_ref video)) as [s|].
    + destruct (String.prefix "ipfs:" s) eqn:P.
      * split; [right; apply prefix_https|]. split; [discriminate|].
        split; [discriminate|]. intros (_ & H).
        apply prefix_ipfs in P as (cid & ->). now destruct (H cid).
      * split; [now left|]. split; [discriminate|].
        split; [|reflexivity]. intros _. split; [exact I|].
        intros cid E. inversion E; subst s.
        assert (String.prefix "ipfs:" ("ipfs:" ++ cid) = true)
          by (apply prefix_ipfs; now exists cid).
        congruence.
    + split; [now left|]. split; [discriminate|].
      split; [|reflexivity]. intros _. split; [exact I | discriminate].
  - apply String.eqb_neq in I.
    split; [right; apply prefix_https|]. split; [discriminate|].
    split; [discriminate | tauto].
Qed.

(** X11. What the thumbnail does not look at: an array reference counts by
    its first element only and like the same string, an empty array like no
    reference, and an empty gateway variable like an unset one. *)
Theorem thumbnail_ignores (env : option string) (id title : string)
    (ts : Z) (s : string) (rest : list string) :
  getVideoThumbnail env
    {| video_id := id; title := title; timestamp := ts;
       storage_ref := RefArray (s :: rest) |}
  = getVideoThumbnail env
      {| video_id := id; title := title; timestamp := ts;
         storage_ref := RefString s |}
  /\ getVideoThumbnail env
       {| video_id := id; title := title; timestamp := ts;
          storage_ref := RefArray [] |}
     = getVideoThumbnail env
         {| video_id := id; title := title; timestamp := ts;
            storage_ref := NoRef |}
  /\ forall video,
       getVideoThumbnail (Some "") video = getVideoThumbnail None video.
Proof.
  split; [|split].
  - now rewrite !thumbnail_cases.
  - now rewrite !thumbnail_cases.
  - intros video. now rewrite !thumbnail_cases.
Qed.

Lemma length_append (a b : string) :
  String.length (a ++ b) = (String.length a + String.length b)%nat.
Proof. induction a as [|c a IH]; simpl; [reflexivity | now rewrite IH]. Qed.

Lemma append_inj_r (x y s : string) :
  (x ++ s)%string = (y ++ s)%string -> x = y.
Proof.
  revert y. induction x as [|c x IH]; intros [|d y] H; simpl in H.
  - reflexivity.
  - apply (f_equal String.length) in H. simpl in H.
    rewrite length_append in H. lia.
  - apply (f_equal String.length) in H. simpl in H.
    rewrite length_append in H. lia.
  - inversion H. f_equal. now apply IH.
Qed.

(** A text between a fixed head and a fixed tail is determined by the
    whole. *)
Lemma template_inj (head tail x y : string) :
  (head ++ x ++ tail)%string = (head ++ y ++ tail)%string -> x = y.
Proof. intros H. apply append_inj_l in H. now apply append_inj_r in H. Qed.

(** X12. Distinct videos get distinct URLs: the playback thumbnail and the
    player source determine the video id, and on one gateway the IPFS
    thumbnail determines the content id, whether the reference is a string
    or the first element of an array. *)
Theorem urls_determine_ids (env : option string) (v1 v2 : Video) :
  (video_id v1 <> "" -> video_id v2 <> "" ->
   getVideoThumbnail env v1 = getVideoThumbnail env v2 ->
   video_id v1 = video_id v2)
  /\ (playerSrc v1 = playerSrc v2 -> video_id v1 = video_id v2)
  /\ (forall cid1 cid2,
        video_id v1 = "" -> video_id v2 = "" ->
        storage_ref v1 = RefString ("ipfs:" ++ cid1)
        \/ (exists rest,
              storage_ref v1 = RefArray (("ipfs:" ++ cid1)%string :: rest)) ->
        storage_ref v2 = RefString ("ipfs:" ++ cid2)
        \/ (exists rest,
              storage_ref v2 = RefArray (("ipfs:" ++ cid2)%string :: rest)) ->
        getVideoThumbnail env v1 = getVideoThumbnail env v2 ->
        cid1 = cid2).
Proof.
  split; [|split].
  - intros N1 N2. rewrite !thumbnail_cases.
    apply String.eqb_neq in N1, N2. rewrite N1, N2. apply template_inj.
  - unfold playerSrc. apply template_inj.
  - intros cid1 cid2 I1 I2 S1 S2.
    apply storageRef_field in S1, S2. rewrite !thumbnail_cases.
    rewrite I1, I2, S1, S2. cbn [String.eqb].
    assert (P : forall c, String.prefix "ipfs:" ("ipfs:" ++ c) = true)
      by (intros c; apply prefix_ipfs; now exists c).
    rewrite !P, !cid_of_ipfs. intros H.
    apply append_inj_l in H. apply append_inj_l in H.
    apply (template_inj "/ipfs/" "/thumbnail.jpg"). exact H.
Qed.

Lemma urls_determine_ids_witness :
  (video_id Sample.hosted <> "" /\ video_id Scenario.rehosted <> ""
   /\ getVideoThumbnail None Sample.hosted
      = getVideoThumbnail None Scenario.rehosted)
  /\ title Sample.hosted <> title Scenario.rehosted
  /\ video_id Sample.hosted = video_id Scenario.rehosted
  /\ (video_id Scenario.pinned_by_string = ""
      /\ video_id Sample.pinned = ""
      /\ getVideoThumbnail None Scenario.pinned_by_string
         = getVideoThumbnail None Sample.pinned)
  /\ "bafybeigdyr" = "bafybeigdyr".
Proof.
  assert (N1 : video_id Sample.hosted <> "") by discriminate.
  assert (N2 : video_id Scenario.rehosted <> "") by discriminate.
  split; [repeat split; assumption|]. split; [discriminate|]. split.
  - exact (proj1 (urls_determine_ids None Sample.hosted Scenario.rehosted)
             N1 N2 eq_refl).
  - split; [repeat split|].
    exact (proj2 (proj2 (urls_determine_ids None Scenario.pinned_by_string
                           Sample.pinned))
             "bafybeigdyr" "bafybeigdyr" eq_refl eq_refl
             (or_introl eq_refl) (or_intror (ex_intro _ [] eq_refl))
             eq_refl).
Defined.

(** *** View counts near the thresholds *)

Lemma formatViewCount_K (count : Z) :
  1000 <= count < 1000000 ->
  formatViewCount count
  = ((Js.decimal (Float.tenths (Float.div count 1000) / 10) ++ "."
      ++ Js.decimal (Float.tenths (Float.div count 1000) mod 10)) ++ "K")%string.
Proof.
  intros [L U]. unfold formatViewCount.
  destruct (1000000 <=? count) eqn:M; [apply Z.leb_le in M; lia|].
  destruct (1000 <=? count) eqn:K; [|apply Z.leb_gt in K; lia].
  reflexivity.
Qed.

Lemma formatViewCount_M (count : Z) :
  1000000 <= count ->
  formatViewCount count
  = ((Js.decimal (Float.tenths (Float.div count 1000000) / 10) ++ "."
      ++ Js.decimal (Float.tenths (Float.div count 1000000) mod 10))
     ++ "M")%string.
Proof.
  intros L. unfold formatViewCount.
  destruct (1000000 <=? count) eqn:M; [|apply Z.leb_gt in M; lia].
  reflexivity.
Qed.

(** X13. The threshold is tested before the rounding: every count from
    999,950 to 999,999 is shown as "1000.0K", not as "1.0M". *)
Theorem formatViewCount_rollover (count : Z) :
  999950 <= count < 1000000 -> formatViewCount count = "1000.0K".
Proof.
  intros [L U].
  destruct (Z.eq_dec count 999950) as [-> | N]; [vm_compute; reflexivity|].
  rewrite formatViewCount_K by lia.
  destruct (tenths_close count 100 50) as [_ T]; try lia.
  change (10 * 100) with 1000 in T.
  pose proof (Z.div_mod count 100 ltac:(lia)) as E.
  pose proof (Z.mod_pos_bound count 100 ltac:(lia)) as B.
  rewrite T by lia.
  replace ((count + 50) / 100) with 10000
    by (apply (Z.div_unique_pos _ _ _ (count + 50 - 1000000)); lia).
  reflexivity.
Qed.

Lemma formatViewCount_rollover_witness :
  999950 <= 999999 < 1000000 /\ formatViewCount 999999 = "1000.0K".
Proof.
  assert (H : 999950 <= 999999 < 1000000) by lia.
  split; [exact H | exact (formatViewCount_rollover 999999 H)].
Defined.

Lemma tenths_mono (c1 c2 D H : Z) :
  0 < H -> D = 2 * H -> 0 < c1 -> c1 <= c2 -> c2 < 2 ^ 53 ->
  Float.tenths (Float.div c1 (10 * D)) <= Float.tenths (Float.div c2 (10 * D)).
Proof.
  intros HH HD P1 L U.
  destruct (tenths_div c1 D H HH HD ltac:(lia)) as (Lo1 & Hi1 & Tie1).
  destruct (tenths_div c2 D H HH HD ltac:(lia)) as (Lo2 & Hi2 & Tie2).
  assert (Dpos : 0 < D) by lia.
  pose proof (Z.div_mod c1 D ltac:(lia)) as E1.
  pose proof (Z.div_mod c2 D ltac:(lia)) as E2.
  pose proof (Z.mod_pos_bound c1 D Dpos) as B1.
  pose proof (Z.mod_pos_bound c2 D Dpos) as B2.
  pose proof (Z.div_le_mono c1 c2 D Dpos L) as Q.
  assert (N1 : c1 / D <= Float.tenths (Float.div c1 (10 * D)) <= c1 / D + 1).
  { destruct (Z.lt_trichotomy (c1 mod D) H) as [A | [A | A]].
    - rewrite (Lo1 A). lia.
    - destruct (Tie1 A) as [-> | ->]; lia.
    - rewrite (Hi1 A). lia. }
  assert (N2 : c2 / D <= Float.tenths (Float.div c2 (10 * D)) <= c2 / D + 1).
  { destruct (Z.lt_trichotomy (c2 mod D) H) as [A | [A | A]].
    - rewrite (Lo2 A). lia.
    - destruct (Tie2 A) as [-> | ->]; lia.
    - rewrite (Hi2 A). lia. }
  destruct (Z.eq_dec (c1 / D) (c2 / D)) as [Qe | Qn]; [|lia].
  assert (R : c1 mod D <= c2 mod D) by nia.
  destruct (Z.lt_trichotomy (c1 mod D) H) as [A | [A | A]].
  - rewrite (Lo1 A). lia.
  - destruct (Z.eq_dec c1 c2) as [-> | Nc]; [lia|].
    assert (A2 : H < c2 mod D) by nia.
    rewrite (Hi2 A2). lia.
  - assert (A2 : H < c2 mod D) by lia.
    rewrite (Hi1 A), (Hi2 A2). lia.
Qed.

(** X14. Within one unit a larger count is never shown as a smaller
    number: for two counts in the K range, or two in the M range, the
    tenths shown grow with the count. *)
Theorem formatViewCount_monotone (c1 c2 : Z) :
  c1 <= c2 -> c2 < 2 ^ 53 ->
  (1000 <= c1 -> c2 < 1000000 ->
   exists n1 n2,
     formatViewCount c1
     = ((Js.decimal (n1 / 10) ++ "." ++ Js.decimal (n1 mod 10)) ++ "K")%string
     /\ formatViewCount c2
        = ((Js.decimal (n2 / 10) ++ "." ++ Js.decimal (n2 mod 10))
           ++ "K")%string
     /\ n1 <= n2)
  /\ (1000000 <= c1 ->
      exists n1 n2,
        formatViewCount c1
        = ((Js.decimal (n1 / 10) ++ "." ++ Js.decimal (n1 mod 10))
           ++ "M")%string
        /\ formatViewCount c2
           = ((Js.decimal (n2 / 10) ++ "." ++ Js.decimal (n2 mod 10))
              ++ "M")%string
        /\ n1 <= n2).
Proof.
  intros L U. split.
  - intros L1 U2.
    exists (Float.tenths (Float.div c1 1000)),
           (Float.tenths (Float.div c2 1000)).
    split; [apply formatViewCount_K; lia|].
    split; [apply formatViewCount_K; lia|].
    apply (tenths_mono c1 c2 100 50); lia.
  - intros L1.
    exists (Float.tenths (Float.div c1 1000000)),
           (Float.tenths (Float.div c2 1000000)).
    split; [apply formatViewCount_M; lia|].
    split; [apply formatViewCount_M; lia|].
    apply (tenths_mono c1 c2 100000 50000); lia.
Qed.

Lemma formatViewCount_monotone_witness :
  (1149 <= 1150 /\ 1150 < 2 ^ 53)
  /\ exists n1 n2,
       formatViewCount 1149
       = ((Js.decimal (n1 / 10) ++ "." ++ Js.decimal (n1 mod 10)) ++ "K")%string
       /\ formatViewCount 1150
          = ((Js.decimal (n2 / 10) ++ "." ++ Js.decimal (n2 mod 10))
             ++ "K")%string
       /\ n1 <= n2.
Proof.
  assert (A : 1149 <= 1150) by lia.
  assert (B : 1150 < 2 ^ 53) by reflexivity.
  split; [split; assumption|].
  apply (proj1 (formatViewCount_monotone 1149 1150 A B)); [lia|reflexivity].
Defined.

(** *** The date of a card *)

Lemma Number_abs (x : Z) : Z.abs (Float.Number x) = Float.Number (Z.abs x).
Proof.
  destruct (Z_le_gt_dec 0 x) as [P | N].
  - rewrite (Z.abs_eq x P). apply Z.abs_eq. now apply Number_nonneg.
  - rewrite (Z.abs_neq x) by lia. rewrite Number_opp.
    pose proof (Number_nonneg (- x) ltac:(lia)) as H.
    rewrite Number_opp in H. lia.
Qed.

(** X15. The date a card shows is exact wherever it exists: for a
    timestamp of at most 8,640,000,000,000 seconds in magnitude the Date is
    valid and holds exactly timestamp * 1000 milliseconds; beyond that (a
    timestamp in nanoseconds, say) the Date is invalid, and with a formatter
    that throws on an invalid date the card reads 'Unknown time'. *)
Theorem getTimeAgo_date (timestamp : Z) :
  (Z.abs timestamp <= 8640000000000 ->
   dateOf timestamp = Some (timestamp * 1000))
  /\ (8640000000000 < Z.abs timestamp ->
      dateOf timestamp = None
      /\ forall formatDistanceToNow err,
           formatDistanceToNow None = Threw err ->
           getTimeAgo formatDistanceToNow timestamp = "Unknown time").
Proof.
  unfold dateOf, times1000, Date. split.
  - intros H.
    assert (B : 8640000000000000 < 2 ^ 53) by reflexivity.
    rewrite (Number_exact timestamp) by lia.
    rewrite (Number_exact (timestamp * 1000)) by lia.
    destruct (Z.abs (timestamp * 1000) <=? 8640000000000000) eqn:E;
      [reflexivity|].
    apply Z.leb_gt in E. lia.
  - intros H.
    assert (D : (if Z.abs (Float.Number (Float.Number timestamp * 1000))
                    <=? 8640000000000000
                 then Some (Float.Number (Float.Number timestamp * 1000))
                 else None) = None).
    { pose proof (Number_mono 8640000000001 (Z.abs timestamp) ltac:(lia)) as M.
      rewrite <- Number_abs in M.
      change (Float.Number 8640000000001) with 8640000000001 in M.
      pose proof (Number_mono 8640000000001000
                    (Z.abs (Float.Number timestamp * 1000)) ltac:(lia)) as M'.
      rewrite <- Number_abs in M'.
      change (Float.Number 8640000000001000) with 8640000000001000 in M'.
      destruct (Z.abs (Float.Number (Float.Number timestamp * 1000))
                <=? 8640000000000000) eqn:E; [|reflexivity].
      apply Z.leb_le in E. lia. }
    split; [exact D|].
    intros f err T. unfold getTimeAgo, dateOf, times1000, Date.
    rewrite D, T. reflexivity.
Qed.

Lemma getTimeAgo_date_witness :
  8640000000000 < Z.abs 1700000000000000000
  /\ dateOf 1700000000000000000 = None
  /\ getTimeAgo Scenario.formatter 1700000000000000000 = "Unknown time".
Proof.
  assert (H : 8640000000000 < Z.abs 1700000000000000000) by reflexivity.
  split; [exact H|].
  destruct (proj2 (getTimeAgo_date 1700000000000000000) H) as [D U].
  split; [exact D|].
  exact (U Scenario.formatter (ErrorObject "Invalid time value") eq_refl).
Defined.

(** *** The empty notice *)

(** X16. The empty notice speaks of videos not uploaded yet exactly when
    the tag is absent or empty; for "all" and "All", where the fetch was
    the unfiltered search, it names them as a category. *)
Theorem emptyMessage_names_sentinels (tag : option string) :
  (emptyMessage tag = "No videos have been uploaded yet"
   <-> Js.truthy tag = false)
  /\ (Js.truthy tag = true -> filtered tag = false ->
      (tag = Some "all" \/ tag = Some "All")
      /\ exists t,
           tag = Some t
           /\ emptyMessage tag
              = ("No videos found with the category " ++ quote ++ t
                 ++ quote)%string).
Proof.
  unfold emptyMessage. split.
  - destruct (Js.truthy tag); split; try reflexivity; discriminate.
  - intros T F. rewrite T. unfold filtered in F. rewrite T in F.
    cbn [andb] in F. apply andb_false_iff in F.
    destruct tag as [t|]; [|discriminate T]. split.
    + destruct F as [F | F]; apply strict_neq_false in F; auto.
    + exists t. split; reflexivity.
Qed.

Lemma emptyMessage_names_sentinels_witness :
  (Js.truthy (Some "all") = true /\ filtered (Some "all") = false)
  /\ fst (fetchVideos (Some Sample.backend) (Some "all") (state mounted))
     = [SearchVideos "" [] []]
  /\ exists t,
       Some "all" = Some t
       /\ emptyMessage (Some "all")
          = ("No videos found with the category " ++ quote ++ t
             ++ quote)%string.
Proof.
  split; [split; reflexivity|]. split; [reflexivity|].
  exact (proj2 (proj2 (emptyMessage_names_sentinels (Some "all"))
                  eq_refl eq_refl)).
Defined.
